(** * serverless-openapi-typescript: the plugin's scan, synthesis,
      parameter defaults and OpenAPI post-processing

    A shallow embedding of [src/serverless-openapi-typescript.js].  The class
    [ServerlessOpenapiTypeScript] mutates three things: the plugin object
    itself ([functionsMissingDocumentation], [schemaGenerator]), the service's
    [custom.documentation] block (its [models] list) and the [documentation]
    attribute of the http events it visits.  Here the first two make up the
    record [Plugin], threaded through a state-and-exception monad, and every
    method that mutates an http event returns the event it leaves behind.
    A [throw] ends the run: the exception is the result, as it is the
    rejection of the promise of the [async] hook.

    JavaScript values are first-order data ([JsVal]); an object is the list of
    its own enumerable properties in enumeration order.  The options and the
    calls of [this.log] play no part in what follows and are left out. *)

From Stdlib Require Import ZArith Ascii String List Bool Lia.
From stdpp Require Import base option list strings gmap.

Local Open Scope string_scope.
Local Open Scope list_scope.
Set Warnings "-register-all".

(** ** JavaScript values *)

(** The scalars of a YAML or JSON document, and [undefined].  Numbers are the
    integers; [NaN], falsy as [0] is, has no constructor. *)
Inductive Prim : Type :=
| PUndefined
| PNull
| PBool (b : bool)
| PNum (n : Z)
| PStr (s : string).

Inductive JsVal : Type :=
| JPrim (p : Prim)
| JArr (elements : list JsVal)
| JObj (properties : list (string * JsVal)).

Abbreviation JsObj := (list (string * JsVal)).
Abbreviation JUndefined := (JPrim PUndefined).
Abbreviation JNull := (JPrim PNull).
Abbreviation JBool b := (JPrim (PBool b)).
Abbreviation JNum n := (JPrim (PNum n)).
Abbreviation JStr s := (JPrim (PStr s)).

(** [ToBoolean]: [undefined], [null], [false], [0] and the empty string are
    falsy; every object and array is truthy. *)
Definition truthy_prim (p : Prim) : bool :=
  match p with
  | PUndefined | PNull => false
  | PBool b => b
  | PNum n => negb (n =? 0)%Z
  | PStr s => negb (String.eqb s "")
  end.

Definition truthy (v : JsVal) : bool :=
  match v with
  | JPrim p => truthy_prim p
  | JArr _ | JObj _ => true
  end.

(** [v === s] for a string [s]. *)
Definition is_string (s : string) (v : JsVal) : bool :=
  match v with
  | JStr s' => String.eqb s' s
  | _ => false
  end.

(** *** Objects *)

(** [o[k]]: the value of the property, [undefined] when [o] has none. *)
Fixpoint get_prop (o : JsObj) (k : string) : JsVal :=
  match o with
  | [] => JUndefined
  | (k', v) :: o' => if String.eqb k' k then v else get_prop o' k
  end.

(** [k in o] for own properties. *)
Fixpoint has_prop (o : JsObj) (k : string) : bool :=
  match o with
  | [] => false
  | (k', _) :: o' => String.eqb k' k || has_prop o' k
  end.

(** [o[k] = v]: an existing property keeps its place, a new one goes last. *)
Fixpoint set_prop (o : JsObj) (k : string) (v : JsVal) : JsObj :=
  match o with
  | [] => [(k, v)]
  | (k', v') :: o' =>
      if String.eqb k' k then (k', v) :: o' else (k', v') :: set_prop o' k v
  end.

(** [Object.assign(target, source)]: every own property of [source] is set on
    [target], in [source]'s order. *)
Definition object_assign (target source : JsObj) : JsObj :=
  fold_left (fun t kv => set_prop t (fst kv) (snd kv)) source target.

(** *** Strings *)

Definition is_upper (c : ascii) : bool :=
  let n := nat_of_ascii c in (65 <=? n)%nat && (n <=? 90)%nat.

Definition is_lower (c : ascii) : bool :=
  let n := nat_of_ascii c in (97 <=? n)%nat && (n <=? 122)%nat.

Definition is_digit (c : ascii) : bool :=
  let n := nat_of_ascii c in (48 <=? n)%nat && (n <=? 57)%nat.

Definition to_lower (c : ascii) : ascii :=
  if is_upper c then ascii_of_nat (nat_of_ascii c + 32) else c.

Definition to_upper (c : ascii) : ascii :=
  if is_lower c then ascii_of_nat (nat_of_ascii c - 32) else c.

(** [String.prototype.toLowerCase], on the ASCII letters.  The method names
    the dispatch of [setModels] knows are ASCII, and no character outside
    ASCII lower-cases to one of their letters. *)
Fixpoint toLowerCase (s : string) : string :=
  match s with
  | EmptyString => EmptyString
  | String c s' => String (to_lower c) (toLowerCase s')
  end.

(** lodash [upperFirst]: the first character in upper case, the rest as it
    is.  On ASCII, as the function keys of a service are. *)
Definition upperFirst (s : string) : string :=
  match s with
  | EmptyString => EmptyString
  | String c s' => String (to_upper c) s'
  end.

(** [Array.prototype.join(',')], which is what a template literal applies to
    an array of strings. *)
Fixpoint join_comma (l : list string) : string :=
  match l with
  | [] => ""
  | [x] => x
  | x :: l' => x +:+ "," +:+ join_comma l'
  end.

Definition newline : string := String (ascii_of_nat 10) EmptyString.

(** ** Exceptions and the plugin monad *)

Inductive Exception : Type :=
| TypeError
    (** a property read on [undefined]/[null], a property written on a
        primitive (the file is in strict mode), a call of a non-function *)
| SchemaError (modelName : string)
    (** thrown by the schema generator's [createSchema] *)
| YAMLException
    (** thrown by [yaml.load] *)
| Error (message : string)
    (** [throw new Error(message)] *).

Inductive Result (A : Type) : Type :=
| Ok (a : A)
| Throw (e : Exception).
Arguments Ok {A} a.
Arguments Throw {A} e.

Definition result_bind {A B} (r : Result A) (k : A -> Result B) : Result B :=
  match r with
  | Ok a => k a
  | Throw e => Throw e
  end.

(** The mutable state of a run.  [generatorsCreated] and [createSchemaCalls]
    are not fields of the class: they record the calls the class makes to
    [tsj.createGenerator] and to [schemaGenerator.createSchema]. *)
Record Plugin : Type := mkPlugin {
  apiNamespace : string;
    (** [serverless.service.custom.documentation.apiNamespace] *)
  models : option (list JsVal);
    (** [serverless.service.custom.documentation.models], [None] when the
        block has no such key *)
  functionsMissingDocumentation : list string;
  schemaGenerator : bool;
    (** whether [this.schemaGenerator] has been set *)
  generatorsCreated : nat;
  createSchemaCalls : list string
}.

Definition M (A : Type) : Type := Plugin -> Result (A * Plugin).

Definition ret {A} (a : A) : M A := fun st => Ok (a, st).

Definition bind {A B} (m : M A) (k : A -> M B) : M B :=
  fun st =>
    match m st with
    | Ok (a, st') => k a st'
    | Throw e => Throw e
    end.

Definition throw {A} (e : Exception) : M A := fun _ => Throw e.

Definition lift {A} (r : Result A) : M A :=
  fun st => match r with Ok a => Ok (a, st) | Throw e => Throw e end.

Declare Scope plugin_scope.
Delimit Scope plugin_scope with plugin.
Notation "'let*' x ':=' m 'in' k" := (bind m (fun x => k))
  (at level 10, x name, m at level 100, k at level 200) : plugin_scope.
Notation "'run' m 'in' k" := (bind m (fun _ => k))
  (at level 10, m at level 100, k at level 200) : plugin_scope.

(** [forEach] over a list whose elements the body may mutate: the elements
    come back as the body left them; the first exception ends the loop. *)
Fixpoint forEach {A} (f : A -> M A) (l : list A) : M (list A) :=
  match l with
  | [] => ret []
  | x :: l' =>
      (let* x' := f x in let* l'' := forEach f l' in ret (x' :: l''))%plugin
  end.

(** [forEach] over a list with an accumulated value the body mutates. *)
Fixpoint forEach_acc {A B} (f : B -> A -> M B) (l : list A) (b : B) : M B :=
  match l with
  | [] => ret b
  | x :: l' => (let* b' := f b x in forEach_acc f l' b')%plugin
  end.

(** ** The service configuration the plugin reads *)

(** [httpEvent.documentation] as the service file gives it: no such key, a
    scalar, or a mapping. *)
Inductive DocAttr : Type :=
| DocAbsent
| DocPrim (p : Prim)
| DocObj (o : JsObj).

(** An [http] event.  [paths] and [querystrings] are the entries
    [Object.entries] gives for [request.parameters.paths] and
    [request.parameters.querystrings], empty when the event has none. *)
Record HttpEvent : Type := mkHttpEvent {
  method : string;
  private : JsVal;
  documentation : DocAttr;
  paths : list (string * JsVal);
  querystrings : list (string * JsVal)
}.

(** [event.http]: [undefined] for the events of other kinds, the text of the
    shorthand ([http: GET users/list]) or an object. *)
Inductive HttpAttr : Type :=
| HttpAbsent
| HttpShorthand (text : string)
| HttpObject (httpEvent : HttpEvent).

(** An event of a function. *)
Record Event : Type := mkEvent { http : HttpAttr }.

(** [serverless.service.functions]: the function keys in the order of
    [Object.keys], each with its [events] (the empty list when the function
    declares none). *)
Definition Functions : Type := list (string * list Event).

(** The characters that make lodash read a key as a path of several keys. *)
Definition path_char (c : ascii) : bool :=
  Ascii.eqb c "." || Ascii.eqb c "[" || Ascii.eqb c "]".

(** A function key lodash [get] reads as one key: a text without [.], [[]
    and []], as the identifiers of Serverless are (letters, digits, [-] and
    [_]). *)
Fixpoint plain_key (key : string) : bool :=
  match key with
  | EmptyString => true
  | String c key' => negb (path_char c) && plain_key key'
  end.

Definition plain_keys (functions : Functions) : bool :=
  forallb (fun f => plain_key (fst f)) functions.

(** [key in functions]. *)
Definition has_key (functions : Functions) (key : string) : bool :=
  existsb (fun f => String.eqb (fst f) key) functions.

(** [httpEvent.documentation] is truthy. *)
Definition documented (d : DocAttr) : bool :=
  match d with
  | DocAbsent => false
  | DocPrim p => truthy_prim p
  | DocObj _ => true
  end.

(** [httpEvent.documentation !== null]. *)
Definition not_null (d : DocAttr) : bool :=
  match d with
  | DocPrim PNull => false
  | _ => true
  end.

Definition set_documentation (e : HttpEvent) (d : DocAttr) : HttpEvent :=
  {| method := method e; private := private e; documentation := d;
     paths := paths e; querystrings := querystrings e |}.

(** lodash [set(httpEvent, 'documentation.<key>', value)]: a [documentation]
    that is not an object is replaced by a fresh one on the way. *)
Definition lodash_set_documentation (e : HttpEvent) (key : string) (value : JsVal)
  : HttpEvent :=
  let o := match documentation e with DocObj o => o | _ => [] end in
  set_documentation e (DocObj (set_prop o key value)).

(** ** The plugin *)

Definition set_models (st : Plugin) (ms : option (list JsVal)) : Plugin :=
  {| apiNamespace := apiNamespace st; models := ms;
     functionsMissingDocumentation := functionsMissingDocumentation st;
     schemaGenerator := schemaGenerator st;
     generatorsCreated := generatorsCreated st;
     createSchemaCalls := createSchemaCalls st |}.

Definition push_missing (st : Plugin) (functionName : string) : Plugin :=
  {| apiNamespace := apiNamespace st; models := models st;
     functionsMissingDocumentation :=
       functionsMissingDocumentation st ++ [functionName];
     schemaGenerator := schemaGenerator st;
     generatorsCreated := generatorsCreated st;
     createSchemaCalls := createSchemaCalls st |}.

(** [this.schemaGenerator = this.schemaGenerator || tsj.createGenerator(..)] *)
Definition ensure_generator (st : Plugin) : Plugin :=
  if schemaGenerator st then st
  else
    {| apiNamespace := apiNamespace st; models := models st;
       functionsMissingDocumentation := functionsMissingDocumentation st;
       schemaGenerator := true;
       generatorsCreated := S (generatorsCreated st);
       createSchemaCalls := createSchemaCalls st |}.

Definition record_call (st : Plugin) (modelName : string) : Plugin :=
  {| apiNamespace := apiNamespace st; models := models st;
     functionsMissingDocumentation := functionsMissingDocumentation st;
     schemaGenerator := schemaGenerator st;
     generatorsCreated := generatorsCreated st;
     createSchemaCalls := createSchemaCalls st ++ [modelName] |}.

(** The entry [setModel] merges into [custom.documentation.models]. *)
Definition model_entry (modelName : string) (schema : JsVal) : JsVal :=
  JObj [("name", JStr modelName);
        ("contentType", JStr "application/json");
        ("schema", schema)].

(** What lodash [mergeWith] leaves in [custom.documentation.models] for the
    source [{documentation: {models: [entry]}}] and the customizer of
    [setModel]: an array takes [objValue.concat(srcValue)]; a missing key
    takes the default deep merge, a copy of the source array. *)
Definition mergeWith_models (objValue : option (list JsVal)) (entry : JsVal)
  : option (list JsVal) :=
  match objValue with
  | Some l => Some (l ++ [entry])
  | None => Some [entry]
  end.

(** The plugin after [setModel] has registered [modelName] with [schema]. *)
Definition registered (st : Plugin) (modelName : string) (schema : JsVal) : Plugin :=
  set_models (record_call (ensure_generator st) modelName)
    (mergeWith_models (models st) (model_entry modelName schema)).

(** The registry as a sequence. *)
Definition registry (st : Plugin) : list JsVal := default [] (models st).

(** [definitionPrefix] of [setModels]. *)
Definition definition_prefix (st : Plugin) (functionName : string) : string :=
  apiNamespace st +:+ "." +:+ upperFirst functionName.

(** [httpEvent.documentation[k]], [undefined] where [documentation] is no
    object. *)
Definition documentation_prop (d : DocAttr) (k : string) : JsVal :=
  match d with
  | DocObj o => get_prop o k
  | _ => JUndefined
  end.

(** The lower-case methods that share the second case of [setModels]. *)
Definition with_body (m : string) : Prop := m = "patch" \/ m = "put" \/ m = "post".

(** The response entries [setModels] writes. *)
Definition delete_responses : JsVal :=
  JArr [JObj [("statusCode", JNum 204); ("responseModels", JObj [])]].

Definition ok_responses (responseModelName : string) : JsVal :=
  JArr [JObj [("statusCode", JNum 200);
              ("responseBody", JObj [("description", JStr "")]);
              ("responseModels",
               JObj [("application/json", JStr responseModelName)])]].

(** The default documentation of a parameter. *)
Definition paramDocumentationFromSls (name : string) (required : JsVal) : JsObj :=
  [("name", JStr name);
   ("required", required);
   ("schema", JObj [("type", JStr "string")])].

(** [documentedParams.find(documentedParam => documentedParam.name === name)],
    with the index of what it finds.  Reading [name] off [undefined] or [null]
    throws; a scalar or an array has no such property. *)
Fixpoint find_param (name : string) (l : list JsVal) (i : nat)
  : Result (option (nat * JsObj)) :=
  match l with
  | [] => Ok None
  | JPrim PUndefined :: _ | JPrim PNull :: _ => Throw TypeError
  | JObj p :: l' =>
      if is_string name (get_prop p "name") then Ok (Some (i, p))
      else find_param name l' (S i)
  | _ :: l' => find_param name l' (S i)
  end.

(** [documentedParam.name === name], for a [documentedParam] that is neither
    [undefined] nor [null]. *)
Definition has_name (name : string) (v : JsVal) : bool :=
  match v with
  | JObj p => is_string name (get_prop p "name")
  | _ => false
  end.

Definition nullish (v : JsVal) : bool :=
  match v with
  | JPrim PUndefined | JPrim PNull => true
  | _ => false
  end.

(** The array [documentation[key] || []], when it is one. *)
Definition documented_params (doc : JsObj) (key : string) : option (list JsVal) :=
  let current := get_prop doc key in
  if truthy current then
    match current with
    | JArr l => Some l
    | _ => None
    end
  else Some [].

(** The entry that is there already, with a [schema] that names a model
    replaced by the schema of that model. *)
Definition schema_resolved (existing : JsObj) (schema : option JsVal) : JsObj :=
  match get_prop existing "schema", schema with
  | JStr _, Some schema => set_prop existing "schema" schema
  | _, _ => existing
  end.

(** The event is one the scan records as missing its documentation: the
    condition of the [else if] in [populateServerlessWithModels], reached
    when [documentation] is falsy.  The shorthand, when it is not the empty
    string, is such an event. *)
Definition undocumented (event : Event) : bool :=
  match http event with
  | HttpObject e =>
      negb (documented (documentation e)) && not_null (documentation e)
      && negb (truthy (private e))
  | HttpShorthand text => negb (String.eqb text "")
  | HttpAbsent => false
  end.

(** The function names the scan pushes, one for each such event, in the
    order of the scan, when it scans the events of every function. *)
Definition offenders (functions : Functions) : list string :=
  flat_map (fun f => map (fun _ => fst f) (List.filter undocumented (snd f)))
    functions.

(** The text [s] has [sub] somewhere in it. *)
Definition contains (s sub : string) : Prop :=
  exists before after, s = before +:+ sub +:+ after.

(** The message of [assertAllFunctionsDocumented]. *)
Definition missing_message (missing : list string) : string :=
  "Some functions have http events which are not documented:" +:+ newline +:+
  "         " +:+ join_comma missing +:+ newline +:+
  "         " +:+ newline +:+
  "        Please add a documentation attribute. " +:+ newline +:+
  "        If you wish to keep the function undocumented, please explicitly set " +:+ newline +:+
  "        documentation: ~" +:+ newline +:+
  "         " +:+ newline +:+
  "        ".

Section Plugin.

(** [schemaGenerator.createSchema] of ts-json-schema-generator, for the type
    declarations and options [generateSchema] configures the generator with:
    the schema of the named type, or [None] where it throws (a type that is
    not declared).  [tsj.createGenerator] itself is taken to return. *)
Variable createSchema : string -> option JsVal.

Definition generateSchema (modelName : string) : M JsVal :=
  fun st =>
    let st' := record_call (ensure_generator st) modelName in
    match createSchema modelName with
    | Some schema => Ok (schema, st')
    | None => Throw (SchemaError modelName)
    end.

Definition setModel (modelName : string) : M unit :=
  (let* schema := generateSchema modelName in
   fun st =>
     Ok (tt, set_models st
               (mergeWith_models (models st) (model_entry modelName schema))))%plugin.

(** [case 'get':] of the switch in [setModels], where the cases of the
    methods with a body arrive too, having no [break]. *)
Definition case_get (definitionPrefix : string) (httpEvent : HttpEvent) : M HttpEvent :=
  (let responseModelName := definitionPrefix +:+ ".Response" in
   run setModel (definitionPrefix +:+ ".Response") in
   ret (lodash_set_documentation httpEvent "methodResponses"
          (ok_responses responseModelName)))%plugin.

Definition setModels (httpEvent : HttpEvent) (functionName : string) : M HttpEvent :=
  fun st =>
    let definitionPrefix := definition_prefix st functionName in
    let method := toLowerCase (method httpEvent) in
    (if String.eqb method "delete" then
       ret (lodash_set_documentation httpEvent "methodResponses" delete_responses)
     else if String.eqb method "patch" || String.eqb method "put"
             || String.eqb method "post" then
       let requestModelName := definitionPrefix +:+ ".Request.Body" in
       run setModel (definitionPrefix +:+ ".Request.Body") in
       let httpEvent :=
         lodash_set_documentation httpEvent "requestModels"
           (JObj [("application/json", JStr requestModelName)]) in
       let httpEvent :=
         lodash_set_documentation httpEvent "requestBody"
           (JObj [("description", JStr "")]) in
       case_get definitionPrefix httpEvent
     else if String.eqb method "get" then
       case_get definitionPrefix httpEvent
     else ret httpEvent)%plugin st.

(** The body of the loop of [setDefaultParamsDocumentation], for one entry
    [[name, required]] of [params]. *)
Definition setDefaultParam (documentationKey : string) (httpEvent : HttpEvent)
    (param : string * JsVal) : M HttpEvent :=
  let '(name, required) := param in
  match documentation httpEvent with
  | DocObj doc =>
      let current := get_prop doc documentationKey in
      let doc :=
        set_prop doc documentationKey (if truthy current then current else JArr []) in
      match get_prop doc documentationKey with
      | JArr documentedParams =>
          (let* existingDocumentedParam := lift (find_param name documentedParams 0) in
           match existingDocumentedParam with
           | None =>
               ret (set_documentation httpEvent
                      (DocObj (set_prop doc documentationKey
                                 (JArr (documentedParams ++
                                        [JObj (paramDocumentationFromSls name required)])))))
           | Some (i, existing) =>
               let* existing :=
                 match get_prop existing "schema" with
                 | JStr schemaName =>
                     let* schema := generateSchema schemaName in
                     ret (set_prop existing "schema" schema)
                 | _ => ret existing
                 end in
               let merged :=
                 object_assign (paramDocumentationFromSls name required) existing in
               let existing := object_assign existing merged in
               ret (set_documentation httpEvent
                      (DocObj (set_prop doc documentationKey
                                 (JArr (<[i := JObj existing]> documentedParams)))))
           end)%plugin
      | _ => throw TypeError
      end
  | DocPrim _ | DocAbsent => throw TypeError
  end.

Definition setDefaultParamsDocumentation (params : list (string * JsVal))
    (httpEvent : HttpEvent) (documentationKey : string) : M HttpEvent :=
  forEach_acc (setDefaultParam documentationKey) params httpEvent.

(** The body of [events.forEach] in [populateServerlessWithModels].  A
    string has no property [documentation] and none [private]: both read
    [undefined]. *)
Definition scanEvent (functionName : string) (event : Event) : M Event :=
  match http event with
  | HttpObject httpEvent =>
      if documented (documentation httpEvent) then
        (let* httpEvent := setModels httpEvent functionName in
         let paths := paths httpEvent in
         let querystrings := querystrings httpEvent in
         let* httpEvent := setDefaultParamsDocumentation paths httpEvent "pathParams" in
         let* httpEvent := setDefaultParamsDocumentation querystrings httpEvent "queryParams" in
         ret {| http := HttpObject httpEvent |})%plugin
      else if not_null (documentation httpEvent)
              && negb (truthy (private httpEvent)) then
        fun st => Ok (event, push_missing st functionName)
      else ret event
  | HttpShorthand text =>
      if negb (String.eqb text "") then
        fun st => Ok (event, push_missing st functionName)
      else ret event
  | HttpAbsent => ret event
  end.

(** The body of [Object.keys(this.functions).forEach], with the lookup
    [get(this.functions, `${functionName}.events`, [])] of lodash.  Where the
    functions have a key that is the text of the path itself, [get] returns
    the function under that key, which has no [forEach].  Otherwise a key
    without [.], [[] and []] is one step of the path, and [get] returns the
    events of the function.  Any other key is, to lodash, a path of several
    steps, none of them the key: the function under the key is not reached,
    and its events are not scanned.  The path is taken to lead to nothing,
    [get] returning its default, the empty array, as it does for the key
    [get.user]; a key whose path leads to a value in some other function is
    beyond this model, and what is proved of whole runs that depends on the
    events scanned is proved for keys without these characters. *)
Definition scanFunction (functions : Functions) (function : string * list Event)
  : M (string * list Event) :=
  let functionName := fst function in
  if has_key functions (functionName +:+ ".events") then throw TypeError
  else if plain_key functionName then
    (let* events := forEach (scanEvent functionName) (snd function) in
     ret (functionName, events))%plugin
  else ret function.

(** The two loops of [populateServerlessWithModels]. *)
Definition scanFunctions (functions : Functions) : M Functions :=
  forEach (scanFunction functions) functions.

Definition assertAllFunctionsDocumented : M unit :=
  fun st =>
    match functionsMissingDocumentation st with
    | [] => Ok (tt, st)
    | missing => Throw (Error (missing_message missing))
    end.

Definition populateServerlessWithModels (functions : Functions) : M Functions :=
  (let* functions := scanFunctions functions in
   run assertAllFunctionsDocumented in
   ret functions)%plugin.

End Plugin.

(** ** Post-processing of the generated OpenAPI file *)

Declare Scope result_scope.
Delimit Scope result_scope with result.
Notation "'let*' x ':=' m 'in' k" := (result_bind m (fun x => k))
  (at level 10, x name, m at level 100, k at level 200) : result_scope.

(** A loop that stops at the first exception. *)
Fixpoint mapM {A B} (f : A -> Result B) (l : list A) : Result (list B) :=
  match l with
  | [] => Ok []
  | x :: l' =>
      (let* y := f x in let* l'' := mapM f l' in Ok (y :: l''))%result
  end.

(** [Object.values] of a string: its characters. *)
Fixpoint chars (s : string) : list JsVal :=
  match s with
  | EmptyString => []
  | String c s' => JStr (String c EmptyString) :: chars s'
  end.

(** [v.k] for the keys the post-processing reads ([info], [title],
    [description], [paths]): no scalar and no array has a property of one of
    these names. *)
Definition read_member (v : JsVal) (k : string) : Result JsVal :=
  match v with
  | JObj o => Ok (get_prop o k)
  | JPrim PUndefined | JPrim PNull => Throw TypeError
  | JPrim _ | JArr _ => Ok JUndefined
  end.

(** [v.k = x] in strict mode, for the keys the post-processing writes
    ([openapi], [tags]).  An array takes the property beside its elements;
    it is not read back, and it is no part of the array as data. *)
Definition assign_member (v : JsVal) (k : string) (x : JsVal) : Result JsVal :=
  match v with
  | JObj o => Ok (JObj (set_prop o k x))
  | JArr l => Ok (JArr l)
  | JPrim _ => Throw TypeError
  end.

(** [Object.values(v).forEach(f)] where [f] mutates the value it is given:
    [v] with its values as [f] left them. *)
Definition forEach_value (f : JsVal -> Result JsVal) (v : JsVal) : Result JsVal :=
  match v with
  | JObj o =>
      (let* o' := mapM (fun kv => let* x := f (snd kv) in Ok (fst kv, x)) o in
       Ok (JObj o'))%result
  | JArr l => (let* l' := mapM f l in Ok (JArr l'))%result
  | JPrim PUndefined | JPrim PNull => Throw TypeError
  | JPrim (PStr s) => (let* _ := mapM f (chars s) in Ok v)%result
  | JPrim _ => Ok v
  end.

(** The object [v] with the value of its property [k], which the code
    mutated in place, as the mutation left it. *)
Definition with_member (v : JsVal) (k : string) (x : JsVal) : JsVal :=
  match v with
  | JObj o => JObj (set_prop o k x)
  | _ => v
  end.

Definition patchOpenApiVersion (openApi : JsVal) : Result JsVal :=
  assign_member openApi "openapi" (JStr "3.1.0").

Definition tagMethods (openApi : JsVal) : Result JsVal :=
  (let* info := read_member openApi "info" in
   let* tagName := read_member info "title" in
   let* description := read_member info "description" in
   let* openApi :=
     assign_member openApi "tags"
       (JArr [JObj [("name", tagName); ("description", description)]]) in
   let* paths := read_member openApi "paths" in
   let* paths :=
     forEach_value
       (fun path =>
          forEach_value
            (fun method => assign_member method "tags" (JArr [tagName]))
            path)
       paths in
   Ok (with_member openApi "paths" paths))%result.

(** A path item none of whose members is a scalar: its operations are
    objects, and a member such as [parameters] is an array. *)
Definition is_path_item (v : JsVal) : bool :=
  match v with
  | JObj members =>
      forallb (fun kv => match snd kv with JPrim _ => false | _ => true end) members
  | _ => false
  end.

(** An operation after [method.tags = [tagName]], and a path item after that
    has been done to each of its operations. *)
Definition tagged_operation (tagName : JsVal) (operation : JsVal) : JsVal :=
  match operation with
  | JObj o => JObj (set_prop o "tags" (JArr [tagName]))
  | _ => operation
  end.

Definition tagged_path_item (tagName : JsVal) (item : JsVal) : JsVal :=
  match item with
  | JObj operations =>
      JObj ((fun kv => (fst kv, tagged_operation tagName (snd kv))) <$> operations)
  | _ => item
  end.

(** [fs.writeFileSync(file, data)] on the files, a map from paths to
    contents: the file is replaced by [data]. *)
Definition writeFileSync (file data : string) (files : gmap string string)
  : gmap string string :=
  <[file := data]> files.

Section PostProcess.

(** js-yaml: [load] parses the YAML text it is given, [dump] prints a
    value as YAML text. *)
Variable yaml_load : string -> Result JsVal.
Variable yaml_dump : JsVal -> Result string.

Definition postProcessOpenApi (outputFile : string) (files : gmap string string)
  : Result (gmap string string) :=
  (let* openApi := yaml_load outputFile in
   let* openApi := patchOpenApiVersion openApi in
   let* openApi := tagMethods openApi in
   let* data := yaml_dump openApi in
   Ok (writeFileSync outputFile data files))%result.

End PostProcess.

(** ** The specification's naming convention *)

Definition is_alnum (c : ascii) : bool := is_upper c || is_lower c || is_digit c.

(** The words of [s], which end at every character that is neither a letter
    nor a digit, each with its first character in upper case, joined. *)
Fixpoint pascal_words (start : bool) (s : string) : string :=
  match s with
  | EmptyString => EmptyString
  | String c s' =>
      if is_alnum c then
        String (if start then to_upper c else c) (pascal_words false s')
      else pascal_words true s'
  end.

(** [PascalCase(functionName)] as the specification writes the model names:
    [create-order] and [create_order] become [CreateOrder].  The code has
    [upperFirst] in its place. *)
Definition spec_PascalCase (functionName : string) : string :=
  pascal_words true functionName.

Fixpoint all_alnum (s : string) : bool :=
  match s with
  | EmptyString => true
  | String c s' => is_alnum c && all_alnum s'
  end.

(** ** Configurations used in the examples below *)

Module Examples.

Definition plugin0 : Plugin :=
  {| apiNamespace := "Api"; models := None;
     functionsMissingDocumentation := []; schemaGenerator := false;
     generatorsCreated := 0; createSchemaCalls := [] |}.

(** A generator that knows every type. *)
Definition anySchema (modelName : string) : option JsVal :=
  Some (JObj [("title", JStr modelName); ("type", JStr "object")]).

(** A generator whose type declarations are empty. *)
Definition noSchema (modelName : string) : option JsVal := None.

Definition httpEvent (method : string) (private : JsVal) (d : DocAttr) : HttpEvent :=
  {| method := method; private := private; documentation := d;
     paths := []; querystrings := [] |}.

Definition summary : JsObj := [("summary", JStr "an endpoint")].

(** [getUser] is documented, [listUsers] lacks the key. *)
Definition two_functions : Functions :=
  [("getUser", [{| http := HttpObject (httpEvent "get" JUndefined (DocObj summary)) |}]);
   ("listUsers", [{| http := HttpObject (httpEvent "get" JUndefined DocAbsent) |}])].

(** One function with two documented GET events. *)
Definition two_events : Functions :=
  [("getUser", [{| http := HttpObject (httpEvent "get" JUndefined (DocObj summary)) |};
                {| http := HttpObject (httpEvent "GET" JUndefined (DocObj summary)) |}])].

(** A private event with a documentation. *)
Definition private_documented : HttpEvent :=
  httpEvent "get" (JBool true) (DocObj summary).

(** A path parameter documented by the name of a model. *)
Definition id_param : JsObj :=
  [("name", JStr "id"); ("schema", JStr "Foo.Bar"); ("description", JStr "the id")].

Definition with_id_param : HttpEvent :=
  {| method := "get"; private := JUndefined;
     documentation := DocObj [("pathParams", JArr [JObj id_param])];
     paths := [("id", JBool true)]; querystrings := [] |}.

(** The document an OpenAPI generator wrote to [openapi.yml]. *)
Definition orders_api : JsObj :=
  [("openapi", JStr "3.0.0");
   ("info", JObj [("title", JStr "Orders API"); ("description", JStr "Orders")]);
   ("paths",
    JObj [("/orders",
           JObj [("get", JObj [("summary", JStr "list"); ("tags", JArr [JStr "old"])]);
                 ("post", JObj [("summary", JStr "create")])])])].

Definition orders_text : string :=
  "openapi: 3.0.0" +:+ newline +:+ "info: {title: Orders API, description: Orders}"
  +:+ newline +:+ "paths: {/orders: {get: {summary: list, tags: [old]}, post: {summary: create}}}"
  +:+ newline.

(** [yaml.load] on the two texts of the example: the text of the file is the
    document above; the text [openapi.yml] is a plain scalar, the string
    itself. *)
Definition load (text : string) : Result JsVal :=
  if String.eqb text orders_text then Ok (JObj orders_api)
  else if String.eqb text "openapi.yml" then Ok (JStr "openapi.yml")
  else Throw YAMLException.

(** A stand-in for [yaml.dump], which the example does not reach. *)
Definition dump (v : JsVal) : Result string :=
  match v with
  | JObj _ => Ok "{}"
  | _ => Ok ""
  end.

Definition files : gmap string string := {["openapi.yml" := orders_text]}.

End Examples.

(** ** Parameter lists *)

(** An element of a parameter list that the search and the merge can work
    on: neither [undefined] nor [null], and, being an object, with distinct
    keys. *)
Definition good_entry (v : JsVal) : Prop :=
  nullish v = false /\ match v with JObj p => NoDup p.*1 | _ => True end.

(** [p], at index [i], is what [find] returns for [name]: the first element
    of that name. *)
Definition first_match (name : string) (l : list JsVal) (i : nat) (p : JsObj) : Prop :=
  l !! i = Some (JObj p)
  /\ has_name name (JObj p) = true
  /\ forall j v, j < i -> l !! j = Some v -> has_name name v = false /\ nullish v = false.

(** An entry with the three fields of the default, whose schema satisfies
    [P]. *)
Definition complete (P : JsVal -> Prop) (p : JsObj) : Prop :=
  NoDup p.*1
  /\ has_prop p "name" = true /\ has_prop p "required" = true
  /\ has_prop p "schema" = true
  /\ P (get_prop p "schema").

(** The parameter [name] has its entry in [l], and the entry is complete. *)
Definition settled (P : JsVal -> Prop) (name : string) (l : list JsVal) : Prop :=
  exists i p, first_match name l i p /\ complete P p.

Definition not_a_string (v : JsVal) : Prop := forall s, v <> JStr s.

(** The entry the loop of [setDefaultParamsDocumentation] leaves in the place
    of [existing] for the parameter [name]: its [schema], when a string,
    resolved by the generator, then the two [Object.assign]. *)
Definition merged_param (createSchema : string -> option JsVal)
    (name : string) (required : JsVal) (existing : JsObj) : JsObj :=
  let existing1 :=
    schema_resolved existing
      (match get_prop existing "schema" with
       | JStr s => createSchema s
       | _ => None
       end) in
  object_assign existing1
    (object_assign (paramDocumentationFromSls name required) existing1).

(** One turn of the loop, on the list: the default at the end when no entry
    has the name, the merge at the place of the first that has. *)
Definition param_step (createSchema : string -> option JsVal)
    (name : string) (required : JsVal) (l l' : list JsVal) : Prop :=
  (Forall (fun v => has_name name v = false /\ nullish v = false) l
   /\ l' = l ++ [JObj (paramDocumentationFromSls name required)])
  \/ (exists i p,
        first_match name l i p
        /\ l' = <[i := JObj (merged_param createSchema name required p)]> l).

(** ** What a scan asks of the generator *)

(** The models [setModels] registers for an event, by its method. *)
Definition models_asked (definitionPrefix : string) (e : HttpEvent) : list string :=
  let method := toLowerCase (method e) in
  if String.eqb method "delete" then []
  else if String.eqb method "patch" || String.eqb method "put"
          || String.eqb method "post" then
    [definitionPrefix +:+ ".Request.Body"; definitionPrefix +:+ ".Response"]
  else if String.eqb method "get" then [definitionPrefix +:+ ".Response"]
  else [].

(** The model that the first entry of the name in [l] names as its schema,
    if there is such an entry and its schema is a string. *)
Definition schema_asked (l : list JsVal) (name : string) : list string :=
  match find_param name l 0 with
  | Ok (Some (_, existing)) =>
      match get_prop existing "schema" with
      | JStr schemaName => [schemaName]
      | _ => []
      end
  | _ => []
  end.

(** The same for every parameter of [params], in [documentation[key]]. *)
Definition schemas_asked (d : DocAttr) (key : string) (params : list (string * JsVal))
  : list string :=
  match d with
  | DocObj o =>
      match documented_params o key with
      | Some l => flat_map (fun param => schema_asked l (fst param)) params
      | None => []
      end
  | _ => []
  end.

(** The names that go to the generator when the event is scanned, for the
    namespace [apiNamespace]. *)
Definition asked_by_event (apiNamespace functionName : string) (event : Event)
  : list string :=
  match http event with
  | HttpObject e =>
      if documented (documentation e) then
        models_asked (apiNamespace +:+ "." +:+ upperFirst functionName) e
        ++ schemas_asked (documentation e) "pathParams" (paths e)
        ++ schemas_asked (documentation e) "queryParams" (querystrings e)
      else []
  | _ => []
  end.

Definition asked (apiNamespace : string) (functions : Functions) : list string :=
  flat_map (fun f => flat_map (asked_by_event apiNamespace (fst f)) (snd f)) functions.

(** A parameter list the loop can work on: [documentation[key]] is falsy or
    an array, without [undefined] or [null] among its elements, its objects
    with distinct keys. *)
Definition good_params (o : JsObj) (key : string) : Prop :=
  exists l, documented_params o key = Some l /\ Forall good_entry l.

(** An event the scan can work on: a [documentation] that is truthy is a
    mapping, with two such parameter lists, and the parameters of the event
    have distinct names, as the keys of an object have. *)
Definition ready (event : Event) : Prop :=
  match http event with
  | HttpObject e =>
      match documentation e with
      | DocObj o =>
          good_params o "pathParams" /\ good_params o "queryParams"
          /\ NoDup (paths e).*1 /\ NoDup (querystrings e).*1
      | DocPrim p => truthy_prim p = false
      | DocAbsent => True
      end
  | HttpShorthand _ | HttpAbsent => True
  end.

(** ** What a scan leaves *)

(** An event after the scan: one with a truthy [documentation] is the same
    event with a [documentation] that is truthy still, every other event is
    as it was. *)
Definition scanned (event event' : Event) : Prop :=
  match http event with
  | HttpObject e =>
      if documented (documentation e) then
        exists e', event' = {| http := HttpObject e' |}
                   /\ e' = set_documentation e (documentation e')
                   /\ documented (documentation e') = true
      else event' = event
  | _ => event' = event
  end.

(** The plugin later in a run: its lists have grown at their ends, the
    namespace is the same, and a generator has been created if there was none
    and one was needed, and then once. *)
Definition grows (st st' : Plugin) : Prop :=
  (exists added, registry st' = registry st ++ added)
  /\ (exists calls, createSchemaCalls st' = createSchemaCalls st ++ calls)
  /\ (exists missing,
        functionsMissingDocumentation st' = functionsMissingDocumentation st ++ missing)
  /\ apiNamespace st' = apiNamespace st
  /\ (schemaGenerator st = true -> schemaGenerator st' = true)
  /\ generatorsCreated st'
     = generatorsCreated st
       + (if schemaGenerator st then 0 else if schemaGenerator st' then 1 else 0).

(** ** Exceptions of the post-processing *)

(** The result is a value or a [TypeError]. *)
Definition ok_or_type_error {A} (r : Result A) : Prop :=
  match r with
  | Ok _ => True
  | Throw e => e = TypeError
  end.

(** ** The constructor *)

(** [delete o[k]]. *)
Fixpoint delete_prop (o : JsObj) (k : string) : JsObj :=
  match o with
  | [] => []
  | (k', v) :: o' =>
      if String.eqb k' k then delete_prop o' k else (k', v) :: delete_prop o' k
  end.

(** [a || b]. *)
Definition or_else (a b : JsVal) : JsVal := if truthy a then a else b.

Module Constructor.

(** What the constructor reads and writes of [serverless]: the hooks of the
    plugin manager, by name, and [service.custom]. *)
Record Serverless : Type := mkServerless {
  hooks : JsObj;
  custom : JsVal
}.

(** The methods the plugin binds to hooks. *)
Inductive Bound : Type :=
| BoundPopulateServerlessWithModels
| BoundPostProcessOpenApi.

(** The instance the constructor leaves, with [serverless] as it has left
    it.  [own_hooks] is [this.hooks], [None] when it is not assigned. *)
Record Instance : Type := mkInstance {
  serverless : Serverless;
  options : JsVal;
  typescriptApiModelPath : JsVal;
  tsconfigPath : JsVal;
  functionsMissingDocumentation : list string;
  disable : bool;
  own_hooks : option (list (string * Bound))
}.

Definition generate : string := "openapi:generate:serverless".

Definition order_message : string :=
  "Please configure your serverless.plugins list so serverless-openapi-documentation-models will be listed AFTER @conqa/serverless-openapi-documentation".

Definition assertPluginOrder (sls : Serverless) : Result unit :=
  if truthy (get_prop (hooks sls) generate) then Ok tt
  else Throw (Error order_message).

(** [options.k] for an [options] that is truthy, and for the two keys
    [initOptions] reads: a scalar or an array has no such property. *)
Definition option_of (options : JsVal) (k : string) : JsVal :=
  match options with
  | JObj o => get_prop o k
  | _ => JUndefined
  end.

(** [initOptions]: the options, and the two paths. *)
Definition initOptions (options : JsVal) : JsVal * JsVal * JsVal :=
  let options := or_else options (JObj []) in
  (options,
   or_else (option_of options "typescriptApiPath") (JStr "api.d.ts"),
   or_else (option_of options "tsconfigPath") (JStr "tsconfig.json")).

(** [custom.documentation]; reading it off [undefined] or [null] throws. *)
Definition custom_documentation (custom : JsVal) : Result JsVal :=
  match custom with
  | JObj o => Ok (get_prop o "documentation")
  | JPrim PUndefined | JPrim PNull => Throw TypeError
  | _ => Ok JUndefined
  end.

Definition constructor (sls : Serverless) (options : JsVal) : Result Instance :=
  (let* _ := assertPluginOrder sls in
   let '(options, typescriptApiModelPath, tsconfigPath) := initOptions options in
   let* documentation := custom_documentation (custom sls) in
   if negb (truthy documentation) then
     Ok {| serverless :=
             {| hooks := delete_prop (hooks sls) generate; custom := custom sls |};
           options := options;
           typescriptApiModelPath := typescriptApiModelPath;
           tsconfigPath := tsconfigPath;
           functionsMissingDocumentation := [];
           disable := true;
           own_hooks := None |}
   else
     Ok {| serverless := sls;
           options := options;
           typescriptApiModelPath := typescriptApiModelPath;
           tsconfigPath := tsconfigPath;
           functionsMissingDocumentation := [];
           disable := false;
           own_hooks :=
             Some [("before:openapi:generate:serverless",
                    BoundPopulateServerlessWithModels);
                   ("after:openapi:generate:serverless",
                    BoundPostProcessOpenApi)] |})%result.

End Constructor.

(** ** Further configurations for the examples *)

Module MoreExamples.

(** An event with two path parameters, one of them documented by the name of
    a model. *)
Definition two_params : HttpEvent :=
  {| method := "get"; private := JUndefined;
     documentation := DocObj [("pathParams", JArr [JObj Examples.id_param])];
     paths := [("id", JBool true); ("page", JBool false)]; querystrings := [] |}.

(** A generator for type declarations that hold [Foo.Bar] and
    [Api.GetUser.Response] and nothing else. *)
Definition declared (modelName : string) : option JsVal :=
  if String.eqb modelName "Foo.Bar" || String.eqb modelName "Api.GetUser.Response"
  then Some (JObj [("title", JStr modelName); ("type", JStr "object")])
  else None.

(** [getUser] is documented, with a path parameter whose schema names a
    model; [listUsers] lacks its documentation. *)
Definition users_service : Functions :=
  [("getUser", [{| http := HttpObject Examples.with_id_param |}]);
   ("listUsers",
    [{| http := HttpObject (Examples.httpEvent "get" JUndefined DocAbsent) |}])].

(** A function under a key with a dot, with an event that lacks its
    documentation. *)
Definition dotted_service : Functions :=
  [("get.user",
    [{| http := HttpObject (Examples.httpEvent "get" JUndefined DocAbsent) |}])].

(** [pathParams] written as a mapping. *)
Definition params_as_mapping : HttpEvent :=
  {| method := "get"; private := JUndefined;
     documentation := DocObj [("pathParams", JObj [("id", JObj [])])];
     paths := [("id", JBool true)]; querystrings := [] |}.

(** A path item with a [summary] beside its operation. *)
Definition with_summary : JsObj :=
  [("info", JObj [("title", JStr "Orders API")]);
   ("paths",
    JObj [("/orders",
           JObj [("summary", JStr "Orders");
                 ("get", JObj [("summary", JStr "list")])])])].

(** A path whose text is itself a YAML mapping, and the value of that
    text. *)
Definition flow_path : string := "{info: {title: Orders API}, paths: {}}".

Definition flow_document : JsObj :=
  [("info", JObj [("title", JStr "Orders API")]); ("paths", JObj [])].

Definition load_flow (text : string) : Result JsVal :=
  if String.eqb text flow_path then Ok (JObj flow_document) else Throw YAMLException.

Definition other_files : gmap string string := {["serverless.yml" := "service: orders"]}.

(** A service with the OpenAPI plugin loaded, with and without a
    [custom.documentation]. *)
Definition generate_hook : string * JsVal :=
  ("openapi:generate:serverless",
   JArr [JObj [("pluginName", JStr "ServerlessOpenApiDocumentation")]]).

Definition package_hook : string * JsVal :=
  ("package:initialize", JArr [JObj [("pluginName", JStr "Package")]]).

Definition documented_service : Constructor.Serverless :=
  {| Constructor.hooks := [package_hook; generate_hook];
     Constructor.custom :=
       JObj [("documentation", JObj [("apiNamespace", JStr "Api")])] |}.

Definition undocumented_service : Constructor.Serverless :=
  {| Constructor.hooks := [package_hook; generate_hook];
     Constructor.custom := JObj [] |}.

End MoreExamples.

(** * Properties *)

(** ** Objects *)

Lemma get_prop_set_eq (o : JsObj) k v : get_prop (set_prop o k v) k = v.
Proof.
  induction o as [|[k' v'] o IH]; simpl.
  - by rewrite String.eqb_refl.
  - destruct (String.eqb k' k) eqn:E; simpl; rewrite E; auto.
Qed.

Lemma get_prop_set_ne (o : JsObj) k k' v :
  k <> k' -> get_prop (set_prop o k v) k' = get_prop o k'.
Proof.
  intros Hne. induction o as [|[k0 v0] o IH]; simpl.
  - destruct (String.eqb k k') eqn:E; [apply String.eqb_eq in E; congruence | done].
  - destruct (String.eqb k0 k) eqn:E; simpl.
    + apply String.eqb_eq in E. subst k0.
      destruct (String.eqb k k') eqn:E'; [apply String.eqb_eq in E'; congruence | done].
    + destruct (String.eqb k0 k'); auto.
Qed.

Lemma has_prop_set (o : JsObj) k k' v :
  has_prop (set_prop o k v) k' = String.eqb k k' || has_prop o k'.
Proof.
  induction o as [|[k0 v0] o IH]; simpl.
  - by rewrite orb_false_r.
  - destruct (String.eqb k0 k) eqn:E; simpl.
    + apply String.eqb_eq in E. subst k0. by destruct (String.eqb k k').
    + rewrite IH. destruct (String.eqb k0 k'), (String.eqb k k'); auto.
Qed.

Lemma set_prop_twice (o : JsObj) k v v' :
  set_prop (set_prop o k v) k v' = set_prop o k v'.
Proof.
  induction o as [|[k0 v0] o IH]; simpl.
  - by rewrite String.eqb_refl.
  - destruct (String.eqb k0 k) eqn:E; simpl; rewrite E; [done | by rewrite IH].
Qed.

Lemma has_prop_false_get (o : JsObj) k : has_prop o k = false -> get_prop o k = JUndefined.
Proof.
  induction o as [|[k0 v0] o IH]; simpl; [done|].
  destruct (String.eqb k0 k); simpl; [done | auto].
Qed.

Lemma elem_of_keys_set_prop (o : JsObj) k v x :
  x ∈ (set_prop o k v).*1 -> x = k \/ x ∈ o.*1.
Proof.
  induction o as [|[k0 v0] o IH]; simpl.
  - rewrite list_elem_of_singleton. auto.
  - destruct (String.eqb k0 k) eqn:E; simpl; rewrite !elem_of_cons; [tauto|].
    intros [->|H]; [tauto|]. destruct (IH H); auto.
Qed.

Lemma keys_set_prop_NoDup (o : JsObj) k v :
  NoDup o.*1 -> NoDup (set_prop o k v).*1.
Proof.
  induction o as [|[k0 v0] o IH]; simpl; intros Hnd.
  - apply NoDup_singleton.
  - apply NoDup_cons in Hnd as [Hn Hnd].
    destruct (String.eqb k0 k) eqn:E; simpl; apply NoDup_cons; [done|].
    split; [|auto].
    intros H. destruct (elem_of_keys_set_prop _ _ _ _ H) as [->|]; [|done].
    by rewrite String.eqb_refl in E.
Qed.

Lemma not_in_keys_has_prop (o : JsObj) k : k ∉ o.*1 -> has_prop o k = false.
Proof.
  induction o as [|[k0 v0] o IH]; simpl; [done|].
  rewrite not_elem_of_cons. intros [Hne H].
  destruct (String.eqb k0 k) eqn:E; simpl; [|auto].
  apply String.eqb_eq in E. congruence.
Qed.

(** [Object.assign] read back: the source's properties, then the target's. *)
Lemma get_prop_assign (source target : JsObj) k :
  NoDup source.*1 ->
  get_prop (object_assign target source) k =
    if has_prop source k then get_prop source k else get_prop target k.
Proof.
  unfold object_assign. revert target.
  induction source as [|[k0 v0] s IH]; simpl; intros target Hnd; [done|].
  apply NoDup_cons in Hnd as [Hn Hnd].
  rewrite IH by done.
  destruct (String.eqb k0 k) eqn:E; simpl.
  - apply String.eqb_eq in E. subst k0.
    rewrite (not_in_keys_has_prop _ _ Hn). apply get_prop_set_eq.
  - destruct (has_prop s k); [done|].
    apply get_prop_set_ne. intros ->. by rewrite String.eqb_refl in E.
Qed.

Lemma has_prop_assign (source target : JsObj) k :
  has_prop (object_assign target source) k = has_prop source k || has_prop target k.
Proof.
  unfold object_assign. revert target.
  induction source as [|[k0 v0] s IH]; simpl; intros target; [done|].
  rewrite IH, has_prop_set. destruct (String.eqb k0 k), (has_prop s k); auto.
Qed.

Lemma keys_assign_NoDup (source target : JsObj) :
  NoDup target.*1 -> NoDup (object_assign target source).*1.
Proof.
  unfold object_assign. revert target.
  induction source as [|[k0 v0] s IH]; simpl; intros target H; [done|].
  apply IH. by apply keys_set_prop_NoDup.
Qed.

(** ** The schema generator and the model registry *)

Section Registry.

Variable createSchema : string -> option JsVal.

Lemma generateSchema_ok modelName schema st :
  createSchema modelName = Some schema ->
  generateSchema createSchema modelName st
  = Ok (schema, record_call (ensure_generator st) modelName).
Proof. intros H. unfold generateSchema. by rewrite H. Qed.

Lemma generateSchema_throw modelName st :
  createSchema modelName = None ->
  generateSchema createSchema modelName st = Throw (SchemaError modelName).
Proof. intros H. unfold generateSchema. by rewrite H. Qed.

Lemma setModel_ok modelName schema st :
  createSchema modelName = Some schema ->
  setModel createSchema modelName st = Ok (tt, registered st modelName schema).
Proof.
  intros H. unfold setModel, bind. rewrite (generateSchema_ok _ _ _ H).
  unfold registered. by destruct (schemaGenerator st) eqn:E; unfold ensure_generator; rewrite E.
Qed.

Lemma setModel_throw modelName st :
  createSchema modelName = None ->
  setModel createSchema modelName st = Throw (SchemaError modelName).
Proof. intros H. unfold setModel, bind. by rewrite (generateSchema_throw _ _ H). Qed.

Lemma registry_registered st modelName schema :
  registry (registered st modelName schema)
  = registry st ++ [model_entry modelName schema].
Proof. unfold registry, registered. simpl. by destruct (models st). Qed.

Lemma missing_registered st modelName schema :
  functionsMissingDocumentation (registered st modelName schema)
  = functionsMissingDocumentation st.
Proof. unfold registered, ensure_generator. by destruct (schemaGenerator st). Qed.

Lemma apiNamespace_registered st modelName schema :
  apiNamespace (registered st modelName schema) = apiNamespace st.
Proof. unfold registered, ensure_generator. by destruct (schemaGenerator st). Qed.

(** C9.  A registration whose schema the generator produces appends exactly
    the entry [{name, contentType: 'application/json', schema}] at the end of
    the registry, whatever the registry holds already (an entry of the same
    name included): the entries that were there are still there, at the same
    places and unchanged. *)
Theorem setModel_appends modelName schema st :
  createSchema modelName = Some schema ->
  exists st',
    setModel createSchema modelName st = Ok (tt, st')
    /\ registry st'
       = registry st ++ [JObj [("name", JStr modelName);
                               ("contentType", JStr "application/json");
                               ("schema", schema)]]
    /\ length (registry st') = S (length (registry st))
    /\ forall i entry, registry st !! i = Some entry -> registry st' !! i = Some entry.
Proof.
  intros H. exists (registered st modelName schema).
  rewrite (setModel_ok _ _ _ H), registry_registered.
  repeat split.
  - rewrite length_app. simpl. lia.
  - intros i entry Hi. by apply lookup_app_l_Some.
Qed.


End Registry.

(** ** Model synthesis *)

Section Synthesis.

Variable createSchema : string -> option JsVal.

Lemma lodash_set_documentation_prop e key value :
  exists doc,
    lodash_set_documentation e key value = set_documentation e (DocObj doc)
    /\ get_prop doc key = value
    /\ forall k, k <> key -> get_prop doc k = documentation_prop (documentation e) k.
Proof.
  unfold lodash_set_documentation. eexists. split; [done|]. split.
  - apply get_prop_set_eq.
  - intros k Hk. rewrite get_prop_set_ne by done. by destruct (documentation e).
Qed.

Lemma setModels_delete e functionName st :
  toLowerCase (method e) = "delete" ->
  setModels createSchema e functionName st
  = Ok (lodash_set_documentation e "methodResponses" delete_responses, st).
Proof. intros H. unfold setModels. by rewrite H. Qed.

Lemma case_get_ok definitionPrefix e st schema :
  createSchema (definitionPrefix +:+ ".Response") = Some schema ->
  case_get createSchema definitionPrefix e st
  = Ok (lodash_set_documentation e "methodResponses"
          (ok_responses (definitionPrefix +:+ ".Response")),
        registered st (definitionPrefix +:+ ".Response") schema).
Proof. intros H. unfold case_get, bind. by rewrite (setModel_ok _ _ _ _ H). Qed.

Lemma setModels_get e functionName st schema :
  toLowerCase (method e) = "get" ->
  createSchema (definition_prefix st functionName +:+ ".Response") = Some schema ->
  setModels createSchema e functionName st
  = Ok (lodash_set_documentation e "methodResponses"
          (ok_responses (definition_prefix st functionName +:+ ".Response")),
        registered st (definition_prefix st functionName +:+ ".Response") schema).
Proof. intros H Hs. unfold setModels. rewrite H. simpl. by apply case_get_ok. Qed.

Lemma setModels_with_body e functionName st request response :
  with_body (toLowerCase (method e)) ->
  createSchema (definition_prefix st functionName +:+ ".Request.Body") = Some request ->
  createSchema (definition_prefix st functionName +:+ ".Response") = Some response ->
  setModels createSchema e functionName st
  = Ok (lodash_set_documentation
          (lodash_set_documentation
             (lodash_set_documentation e "requestModels"
                (JObj [("application/json",
                        JStr (definition_prefix st functionName +:+ ".Request.Body"))]))
             "requestBody" (JObj [("description", JStr "")]))
          "methodResponses"
          (ok_responses (definition_prefix st functionName +:+ ".Response")),
        registered
          (registered st (definition_prefix st functionName +:+ ".Request.Body") request)
          (definition_prefix st functionName +:+ ".Response") response).
Proof.
  intros Hm Hq Hr. unfold setModels.
  assert (Hsel : (String.eqb (toLowerCase (method e)) "delete" = false)
                 /\ (String.eqb (toLowerCase (method e)) "patch"
                     || String.eqb (toLowerCase (method e)) "put"
                     || String.eqb (toLowerCase (method e)) "post" = true)).
  { destruct Hm as [->|[->| ->]]; by vm_compute. }
  destruct Hsel as [-> ->]. unfold bind at 1.
  rewrite (setModel_ok _ _ _ _ Hq). by apply case_get_ok.
Qed.

(** C3.  For a documented event whose method is DELETE in any case of the
    letters, [setModels] leaves [documentation.methodResponses] as the single
    entry [{statusCode: 204, responseModels: {}}], whatever was under that
    key, touches no other key of the documentation, and leaves the plugin,
    its model registry included, as it was: nothing is registered and the
    generator is not called. *)
Theorem delete_yields_204 e functionName st :
  documented (documentation e) = true ->
  toLowerCase (method e) = "delete" ->
  exists doc,
    setModels createSchema e functionName st = Ok (set_documentation e (DocObj doc), st)
    /\ get_prop doc "methodResponses"
       = JArr [JObj [("statusCode", JNum 204); ("responseModels", JObj [])]]
    /\ forall k, k <> "methodResponses" ->
         get_prop doc k = documentation_prop (documentation e) k.
Proof.
  intros _ Hm. rewrite (setModels_delete _ _ _ Hm).
  destruct (lodash_set_documentation_prop e "methodResponses" delete_responses)
    as (doc & -> & Hget & Hother).
  by exists doc.
Qed.

(** C2, as the code names the models.  With [prefix] the API namespace, a dot
    and the function name with its first character in upper case: for a
    documented event whose method is POST, PUT or PATCH in any case of the
    letters, [setModels] registers [prefix.Request.Body] and then
    [prefix.Response], and leaves [requestModels], [requestBody] and the one
    200 entry of [methodResponses] in the documentation; for GET it registers
    [prefix.Response] only, writes the same [methodResponses] and no other key
    of the documentation. *)
Theorem setModels_by_method e functionName st :
  documented (documentation e) = true ->
  let prefix := apiNamespace st +:+ "." +:+ upperFirst functionName in
  let responses :=
    JArr [JObj [("statusCode", JNum 200);
                ("responseBody", JObj [("description", JStr "")]);
                ("responseModels",
                 JObj [("application/json", JStr (prefix +:+ ".Response"))])]] in
  (forall request response,
     with_body (toLowerCase (method e)) ->
     createSchema (prefix +:+ ".Request.Body") = Some request ->
     createSchema (prefix +:+ ".Response") = Some response ->
     exists doc st',
       setModels createSchema e functionName st
       = Ok (set_documentation e (DocObj doc), st')
       /\ registry st'
          = registry st ++ [model_entry (prefix +:+ ".Request.Body") request;
                            model_entry (prefix +:+ ".Response") response]
       /\ get_prop doc "requestModels"
          = JObj [("application/json", JStr (prefix +:+ ".Request.Body"))]
       /\ get_prop doc "requestBody" = JObj [("description", JStr "")]
       /\ get_prop doc "methodResponses" = responses)
  /\ (forall response,
        toLowerCase (method e) = "get" ->
        createSchema (prefix +:+ ".Response") = Some response ->
        exists doc st',
          setModels createSchema e functionName st
          = Ok (set_documentation e (DocObj doc), st')
          /\ registry st' = registry st ++ [model_entry (prefix +:+ ".Response") response]
          /\ get_prop doc "methodResponses" = responses
          /\ forall k, k <> "methodResponses" ->
               get_prop doc k = documentation_prop (documentation e) k).
Proof.
  intros _ prefix responses. subst prefix responses.
  fold (definition_prefix st functionName). split.
  - intros request response Hm Hq Hr.
    rewrite (setModels_with_body _ _ _ _ _ Hm Hq Hr).
    eexists _, _. split; [reflexivity|].
    rewrite !registry_registered, <- app_assoc. split; [done|].
    simpl. rewrite get_prop_set_eq.
    rewrite !get_prop_set_ne, !get_prop_set_eq by done.
    rewrite get_prop_set_ne, get_prop_set_eq by done. done.
  - intros response Hm Hr.
    rewrite (setModels_get _ _ _ _ Hm Hr).
    destruct (lodash_set_documentation_prop e "methodResponses"
                (ok_responses (definition_prefix st functionName +:+ ".Response")))
      as (doc & -> & Hget & Hother).
    exists doc, (registered st (definition_prefix st functionName +:+ ".Response") response).
    by rewrite registry_registered.
Qed.

End Synthesis.

(** ** Default documentation of the parameters *)

Section Parameters.

Variable createSchema : string -> option JsVal.

Lemma documented_params_current doc key l :
  documented_params doc key = Some l ->
  (if truthy (get_prop doc key) then get_prop doc key else JArr []) = JArr l.
Proof.
  unfold documented_params. destruct (truthy (get_prop doc key)); [|congruence].
  destruct (get_prop doc key); congruence.
Qed.

Lemma find_param_none name l i :
  Forall (fun v => has_name name v = false /\ nullish v = false) l ->
  find_param name l i = Ok None.
Proof.
  intros H. revert i. induction H as [|v l [Hn Hu] _ IH]; intros i; simpl; [done|].
  destruct v as [[]| |p]; simpl in *; try done; try apply IH.
  rewrite Hn. apply IH.
Qed.

Lemma find_param_some name l j p i :
  l !! j = Some (JObj p) ->
  has_name name (JObj p) = true ->
  (forall j' v, j' < j -> l !! j' = Some v -> has_name name v = false /\ nullish v = false) ->
  find_param name l i = Ok (Some (i + j, p)).
Proof.
  revert j i. induction l as [|v l IH]; intros j i Hj Hp Hbefore; [done|].
  destruct j as [|j]; simpl in *.
  - inversion Hj; subst v. rewrite Hp. do 3 f_equal. lia.
  - destruct (Hbefore 0 v) as [Hn Hu]; [lia | done |].
    assert (Hrec : find_param name l (S i) = Ok (Some (i + S j, p))).
    { replace (i + S j) with (S i + j) by lia. apply IH; [done..|].
      intros j' v' Hlt Hv'. apply (Hbefore (S j') v'); [lia | done]. }
    destruct v as [[]| |q]; simpl in *; try done. by rewrite Hn.
Qed.

Lemma setDefaultParam_new key e doc l name required st :
  documentation e = DocObj doc ->
  documented_params doc key = Some l ->
  Forall (fun v => has_name name v = false /\ nullish v = false) l ->
  setDefaultParam createSchema key e (name, required) st
  = Ok (set_documentation e
          (DocObj (set_prop doc key
                     (JArr (l ++ [JObj (paramDocumentationFromSls name required)])))),
        st).
Proof.
  intros Hdoc Hl Hnone. unfold setDefaultParam. rewrite Hdoc.
  rewrite get_prop_set_eq, (documented_params_current _ _ _ Hl).
  unfold bind, lift. by rewrite (find_param_none _ _ _ Hnone), set_prop_twice.
Qed.

Lemma setDefaultParam_existing key e doc l i existing name required st :
  documentation e = DocObj doc ->
  documented_params doc key = Some l ->
  l !! i = Some (JObj existing) ->
  has_name name (JObj existing) = true ->
  (forall j v, j < i -> l !! j = Some v -> has_name name v = false /\ nullish v = false) ->
  (forall s, get_prop existing "schema" = JStr s -> createSchema s <> None) ->
  let schema :=
    match get_prop existing "schema" with
    | JStr s => createSchema s
    | _ => None
    end in
  let st' :=
    match get_prop existing "schema" with
    | JStr s => record_call (ensure_generator st) s
    | _ => st
    end in
  let existing1 := schema_resolved existing schema in
  setDefaultParam createSchema key e (name, required) st
  = Ok (set_documentation e
          (DocObj (set_prop doc key
                     (JArr (<[i := JObj (object_assign existing1
                                           (object_assign
                                              (paramDocumentationFromSls name required)
                                              existing1))]> l)))),
        st').
Proof.
  intros Hdoc Hl Hi Hname Hbefore Hres schema st' existing1.
  unfold setDefaultParam. rewrite Hdoc.
  rewrite get_prop_set_eq, (documented_params_current _ _ _ Hl).
  unfold bind at 1. unfold lift.
  rewrite (find_param_some _ _ _ _ 0 Hi Hname Hbefore). simpl.
  subst schema st' existing1. unfold schema_resolved.
  destruct (get_prop existing "schema") as [[]| |] eqn:Hs;
    try by (unfold bind, ret; rewrite set_prop_twice).
  unfold bind. specialize (Hres _ eq_refl).
  destruct (createSchema s) as [schema|] eqn:Hc; [|done].
  rewrite (generateSchema_ok _ _ _ _ Hc). unfold ret. cbv beta iota.
  by rewrite set_prop_twice.
Qed.

(** The two [Object.assign] of the merge: what the entry had, it keeps; what
    only the default has, it takes. *)
Lemma merge_fields (existing default : JsObj) k :
  NoDup existing.*1 -> NoDup default.*1 ->
  get_prop (object_assign existing (object_assign default existing)) k
  = (if has_prop existing k then get_prop existing k else get_prop default k)
  /\ has_prop (object_assign existing (object_assign default existing)) k
     = has_prop existing k || has_prop default k.
Proof.
  intros He Hd. split.
  - rewrite get_prop_assign by by apply keys_assign_NoDup.
    rewrite has_prop_assign, get_prop_assign by done.
    destruct (has_prop existing k) eqn:E; simpl; [done|].
    destruct (has_prop default k) eqn:E'; [done|].
    by rewrite !has_prop_false_get.
  - rewrite !has_prop_assign. by destruct (has_prop existing k), (has_prop default k).
Qed.

Lemma has_prop_schema_resolved existing schema k :
  has_prop (schema_resolved existing schema) k = has_prop existing k.
Proof.
  unfold schema_resolved.
  destruct (get_prop existing "schema") as [[]| |] eqn:Hs; try done.
  destruct schema as [schema|]; [|done].
  rewrite has_prop_set. destruct (String.eqb "schema" k) eqn:E; [|done].
  apply String.eqb_eq in E. subst k. simpl.
  destruct (has_prop existing "schema") eqn:Hh; [done|].
  by rewrite (has_prop_false_get _ _ Hh) in Hs.
Qed.

Lemma keys_schema_resolved_NoDup existing schema :
  NoDup existing.*1 -> NoDup (schema_resolved existing schema).*1.
Proof.
  intros H. unfold schema_resolved.
  destruct (get_prop existing "schema") as [[]| |]; try done.
  destruct schema; [by apply keys_set_prop_NoDup | done].
Qed.

(** One entry [[name, required]] of a parameter set, for the list
    [documentation[key] || []].  If no entry of the list has the name, the
    default [{name, required, schema: {type: 'string'}}] goes to the end of
    the list.  If one has, the first such entry is replaced, at its place, by
    an object in which a [schema] that was a string is the schema the
    generator gives for it, every other field the entry had has the value it
    had, and the fields the entry had not are those of the default; the list
    keeps its length and its other entries. *)
Lemma setDefaultParam_entry key e doc l name required st :
  documentation e = DocObj doc ->
  documented_params doc key = Some l ->
  let default :=
    [("name", JStr name); ("required", required);
     ("schema", JObj [("type", JStr "string")])] in
  (Forall (fun v => has_name name v = false /\ nullish v = false) l ->
   setDefaultParam createSchema key e (name, required) st
   = Ok (set_documentation e (DocObj (set_prop doc key (JArr (l ++ [JObj default])))),
         st))
  /\ (forall i existing,
        l !! i = Some (JObj existing) ->
        has_name name (JObj existing) = true ->
        (forall j v, j < i -> l !! j = Some v ->
                     has_name name v = false /\ nullish v = false) ->
        NoDup existing.*1 ->
        (forall s, get_prop existing "schema" = JStr s -> createSchema s <> None) ->
        exists merged st',
          setDefaultParam createSchema key e (name, required) st
          = Ok (set_documentation e
                  (DocObj (set_prop doc key (JArr (<[i := JObj merged]> l)))),
                st')
          /\ (forall s, get_prop existing "schema" = JStr s ->
                        Some (get_prop merged "schema") = createSchema s)
          /\ (forall k, has_prop existing k = true ->
                        (k = "schema" -> forall s, get_prop existing "schema" <> JStr s) ->
                        get_prop merged k = get_prop existing k)
          /\ (forall k, has_prop existing k = false ->
                        get_prop merged k = get_prop default k)
          /\ (forall k, has_prop merged k = has_prop existing k || has_prop default k)
          /\ length (<[i := JObj merged]> l) = length l
          /\ (forall j, j <> i -> <[i := JObj merged]> l !! j = l !! j)).
Proof.
  intros Hdoc Hl default. split; [by apply setDefaultParam_new|].
  intros i existing Hi Hname Hbefore Hnd Hres.
  pose proof (setDefaultParam_existing key e doc l i existing name required st
                Hdoc Hl Hi Hname Hbefore Hres) as Hrun.
  cbv zeta in Hrun. unfold paramDocumentationFromSls in Hrun. fold default in Hrun.
  set (schema := match get_prop existing "schema" with
                 | JStr s => createSchema s | _ => None end) in *.
  set (existing1 := schema_resolved existing schema) in *.
  assert (Hd : NoDup default.*1).
  { subst default. simpl.
    repeat (apply NoDup_cons; split;
            [rewrite ?elem_of_cons, ?elem_of_nil; intuition discriminate|]).
    apply NoDup_nil_2. }
  assert (H1 : NoDup existing1.*1) by by apply keys_schema_resolved_NoDup.
  eexists _, _. split; [exact Hrun|].
  repeat split.
  - intros s Hs.
    destruct (merge_fields existing1 default "schema" H1 Hd) as [-> _].
    subst existing1. rewrite has_prop_schema_resolved.
    destruct (has_prop existing "schema") eqn:Hh;
      [|by rewrite (has_prop_false_get _ _ Hh) in Hs].
    subst schema. unfold schema_resolved. rewrite Hs.
    specialize (Hres _ Hs). destruct (createSchema s); [|done].
    by rewrite get_prop_set_eq.
  - intros k Hk Hschema.
    destruct (merge_fields existing1 default k H1 Hd) as [-> _].
    subst existing1. rewrite has_prop_schema_resolved, Hk.
    unfold schema_resolved.
    destruct (get_prop existing "schema") as [[]| |] eqn:Hs; try done.
    destruct schema; [|done].
    apply get_prop_set_ne. intros <-. by apply (Hschema eq_refl s).
  - intros k Hk.
    destruct (merge_fields existing1 default k H1 Hd) as [-> _].
    subst existing1. by rewrite has_prop_schema_resolved, Hk.
  - intros k.
    destruct (merge_fields existing1 default k H1 Hd) as [_ ->].
    subst existing1. by rewrite has_prop_schema_resolved.
  - apply length_insert.
  - intros j Hj. by apply list_lookup_insert_ne.
Qed.

End Parameters.

(** ** The scan *)

Section Scan.

Variable createSchema : string -> option JsVal.

#[local] Abbreviation missing := functionsMissingDocumentation.

Lemma bind_Ok {A B} (m : M A) (k : A -> M B) st r :
  bind m k st = Ok r <-> exists a st1, m st = Ok (a, st1) /\ k a st1 = Ok r.
Proof.
  unfold bind. destruct (m st) as [[a st1]|e].
  - split; [eauto|]. by intros (? & ? & [= <- <-] & ?).
  - split; [done|]. by intros (? & ? & ? & ?).
Qed.

(** *** What the scan records *)

Lemma generateSchema_missing modelName st schema st' :
  generateSchema createSchema modelName st = Ok (schema, st') -> missing st' = missing st.
Proof.
  unfold generateSchema. destruct (createSchema modelName); [|done].
  intros [= _ <-]. unfold ensure_generator. by destruct (schemaGenerator st).
Qed.

Lemma setModel_missing modelName st u st' :
  setModel createSchema modelName st = Ok (u, st') -> missing st' = missing st.
Proof.
  destruct (createSchema modelName) as [schema|] eqn:E.
  - rewrite (setModel_ok _ _ _ _ E). intros [= _ <-]. apply missing_registered.
  - by rewrite (setModel_throw _ _ _ E).
Qed.

Lemma case_get_missing definitionPrefix e st e' st' :
  case_get createSchema definitionPrefix e st = Ok (e', st') -> missing st' = missing st.
Proof.
  unfold case_get. intros (u & st1 & H1 & [= _ <-])%bind_Ok.
  by apply setModel_missing in H1.
Qed.

Lemma setModels_missing e functionName st e' st' :
  setModels createSchema e functionName st = Ok (e', st') -> missing st' = missing st.
Proof.
  unfold setModels.
  destruct (String.eqb _ "delete"); [by intros [= _ <-]|].
  destruct (_ || _).
  - intros (u & st1 & H1 & H2)%bind_Ok.
    apply setModel_missing in H1. apply case_get_missing in H2. congruence.
  - destruct (String.eqb _ "get"); [apply case_get_missing | by intros [= _ <-]].
Qed.

Lemma setDefaultParam_missing key e param st e' st' :
  setDefaultParam createSchema key e param st = Ok (e', st') -> missing st' = missing st.
Proof.
  unfold setDefaultParam. destruct param as [name required].
  destruct (documentation e) as [| |doc]; try done.
  rewrite get_prop_set_eq.
  destruct (if truthy _ then _ else _) as [| l |]; try done.
  intros (found & st1 & H1 & H2)%bind_Ok.
  assert (st1 = st) as ->.
  { unfold lift in H1. destruct (find_param name l 0); congruence. }
  destruct found as [[i existing]|]; [|by inversion H2].
  apply bind_Ok in H2 as (existing' & st2 & H2 & [= _ <-]).
  destruct (get_prop existing "schema") as [[]| |]; try (by inversion H2).
  apply bind_Ok in H2 as (schema & st3 & H2 & [= _ <-]).
  by apply generateSchema_missing in H2.
Qed.

Lemma setDefaultParamsDocumentation_missing key params e st e' st' :
  setDefaultParamsDocumentation createSchema params e key st = Ok (e', st') ->
  missing st' = missing st.
Proof.
  unfold setDefaultParamsDocumentation. revert e st.
  induction params as [|param params IH]; intros e st; simpl; [by intros [= _ <-]|].
  intros (e1 & st1 & H1 & H2)%bind_Ok.
  apply setDefaultParam_missing in H1. apply IH in H2. congruence.
Qed.

Lemma scanEvent_missing functionName event st event' st' :
  scanEvent createSchema functionName event st = Ok (event', st') ->
  missing st'
  = missing st ++ (if undocumented event then [functionName] else []).
Proof.
  unfold scanEvent, undocumented.
  destruct (http event) as [|text|e]; [intros [= _ <-]; by rewrite app_nil_r | |].
  { destruct (negb _); intros [= _ <-]; [done | by rewrite app_nil_r]. }
  destruct (documented (documentation e)); simpl.
  - intros (e1 & st1 & H1 & (e2 & st2 & H2 & (e3 & st3 & H3 & [= _ <-])%bind_Ok)%bind_Ok)%bind_Ok.
    apply setModels_missing in H1.
    apply setDefaultParamsDocumentation_missing in H2, H3.
    rewrite app_nil_r. congruence.
  - destruct (not_null _ && _); intros [= _ <-]; [done | by rewrite app_nil_r].
Qed.

Lemma plain_key_events key : plain_key (key +:+ ".events") = false.
Proof.
  induction key as [|c key IH]; [done|].
  change (negb (path_char c) && plain_key (key +:+ ".events") = false).
  by rewrite IH, andb_false_r.
Qed.

(** Among keys without [.], [[] and []] none is the text of a path. *)
Lemma has_key_plain functions key :
  plain_keys functions = true -> has_key functions (key +:+ ".events") = false.
Proof.
  unfold plain_keys, has_key. induction functions as [|f functions IH]; [done|].
  cbn [forallb existsb]. intros [Hf Hfs]%andb_true_iff. rewrite (IH Hfs), orb_false_r.
  destruct (String.eqb_spec (fst f) (key +:+ ".events")) as [E|]; [|done].
  by rewrite E, plain_key_events in Hf.
Qed.

Lemma forEach_scanEvent_missing functionName events st events' st' :
  forEach (scanEvent createSchema functionName) events st = Ok (events', st') ->
  missing st' = missing st ++ map (fun _ => functionName) (List.filter undocumented events).
Proof.
  revert st events'. induction events as [|ev events IH]; intros st events'; simpl.
  - intros [= _ <-]. by rewrite app_nil_r.
  - intros (ev' & st2 & H1 & (events'' & st3 & H2 & [= _ <-])%bind_Ok)%bind_Ok.
    apply scanEvent_missing in H1. apply IH in H2. rewrite H2, H1, <- app_assoc.
    by destruct (undocumented ev).
Qed.

Lemma scanFunction_missing functions function st function' st' :
  plain_key (fst function) = true ->
  scanFunction createSchema functions function st = Ok (function', st') ->
  missing st'
  = missing st ++ map (fun _ => fst function) (List.filter undocumented (snd function)).
Proof.
  unfold scanFunction. intros ->. destruct (has_key _ _); [done|].
  intros (events' & st1 & H & [= _ <-])%bind_Ok.
  by apply forEach_scanEvent_missing in H.
Qed.

Lemma forEach_scanFunction_missing all functions st functions' st' :
  plain_keys functions = true ->
  forEach (scanFunction createSchema all) functions st = Ok (functions', st') ->
  missing st' = missing st ++ offenders functions.
Proof.
  unfold plain_keys, offenders. revert st functions'.
  induction functions as [|f functions IH]; intros st functions'; simpl.
  - intros _ [= _ <-]. by rewrite app_nil_r.
  - intros [Hf Hfs]%andb_true_iff
      (f' & st1 & H1 & (fs' & st2 & H2 & [= _ <-])%bind_Ok)%bind_Ok.
    apply scanFunction_missing in H1; [|done]. apply IH in H2; [|done].
    by rewrite H2, H1, <- app_assoc.
Qed.

Lemma scanFunctions_missing functions st functions' st' :
  plain_keys functions = true ->
  scanFunctions createSchema functions st = Ok (functions', st') ->
  missing st' = missing st ++ offenders functions.
Proof. apply forEach_scanFunction_missing. Qed.

Lemma offenders_In functions functionName events event :
  In (functionName, events) functions ->
  In event events ->
  undocumented event = true ->
  In functionName (offenders functions).
Proof.
  intros Hf He Hu. unfold offenders. apply in_flat_map.
  exists (functionName, events). split; [done|]. simpl.
  apply in_map_iff. exists event. split; [done|]. apply filter_In. auto.
Qed.

(** *** The message of the failure *)

Lemma append_cons c (s t : string) : String c s +:+ t = String c (s +:+ t).
Proof. reflexivity. Qed.

Lemma append_empty_r (s : string) : s +:+ "" = s.
Proof. induction s as [|c s IH]; [done|]. by rewrite append_cons, IH. Qed.

Lemma append_assoc (a b c : string) : (a +:+ b) +:+ c = a +:+ b +:+ c.
Proof. induction a as [|x a IH]; [done|]. by rewrite !append_cons, IH. Qed.

Lemma contains_refl s : contains s s.
Proof. exists "", "". by rewrite append_empty_r. Qed.

Lemma contains_append_l s t sub : contains s sub -> contains (s +:+ t) sub.
Proof.
  intros (b & a & ->). exists b, (a +:+ t). by rewrite !append_assoc.
Qed.

Lemma contains_append_r s t sub : contains t sub -> contains (s +:+ t) sub.
Proof.
  intros (b & a & ->). exists (s +:+ b), a. by rewrite !append_assoc.
Qed.

Lemma join_comma_contains l x : In x l -> contains (join_comma l) x.
Proof.
  induction l as [|y l IH]; [done|].
  intros [->|Hin].
  - destruct l; [apply contains_refl|].
    change (contains (x +:+ "," +:+ join_comma (s :: l)) x).
    apply contains_append_l, contains_refl.
  - destruct l as [|z l]; [done|].
    change (contains (y +:+ "," +:+ join_comma (z :: l)) x).
    by apply contains_append_r, contains_append_r, IH.
Qed.

Lemma missing_message_contains l x : In x l -> contains (missing_message l) x.
Proof.
  intros H. unfold missing_message.
  do 3 apply contains_append_r. by apply contains_append_l, join_comma_contains.
Qed.

(** *** The outcome of a run *)

Lemma find_param_total name l i :
  forallb (fun x => negb (nullish x)) l = true ->
  exists found, find_param name l i = Ok found.
Proof.
  revert i. induction l as [|v l IH]; intros i; simpl; [eauto|].
  intros [Hv Hl]%andb_true_iff.
  destruct v as [[]| |p]; simpl in *; try done; try by apply IH.
  destruct (is_string name (get_prop p "name")); [eauto | by apply IH].
Qed.

Lemma populate_after_scan functions st functions' st' :
  scanFunctions createSchema functions st = Ok (functions', st') ->
  missing st' <> [] ->
  populateServerlessWithModels createSchema functions st
  = Throw (Error (missing_message (missing st'))).
Proof.
  intros Hscan Hne. unfold populateServerlessWithModels, bind. rewrite Hscan.
  unfold assertAllFunctionsDocumented. by destruct (missing st').
Qed.

Lemma populate_after_throw functions st ex :
  scanFunctions createSchema functions st = Throw ex ->
  populateServerlessWithModels createSchema functions st = Throw ex.
Proof.
  intros Hscan. unfold populateServerlessWithModels, bind. by rewrite Hscan.
Qed.

Lemma absent_is_undocumented e :
  documentation e = DocAbsent -> truthy (private e) = false ->
  undocumented {| http := HttpObject e |} = true.
Proof. intros Hd Hp. unfold undocumented. simpl. by rewrite Hd, Hp. Qed.

Lemma scanEvent_null functionName e st :
  documentation e = DocPrim PNull ->
  scanEvent createSchema functionName {| http := HttpObject e |} st
  = Ok ({| http := HttpObject e |}, st).
Proof. intros Hd. unfold scanEvent. simpl. by rewrite Hd. Qed.

Lemma scanEvent_private functionName e st :
  truthy (private e) = true ->
  documented (documentation e) = false ->
  scanEvent createSchema functionName {| http := HttpObject e |} st
  = Ok ({| http := HttpObject e |}, st).
Proof.
  intros Hp Hd. unfold scanEvent. simpl. rewrite Hd, Hp. by rewrite andb_false_r.
Qed.

(** C5, as the scan orders its tests.  An http event whose [documentation]
    is [null], or which is private and has no truthy [documentation], is left
    as it is: no model is registered, no parameter is documented, the
    generator is not called and the function is not recorded as missing its
    documentation. *)
Theorem opted_out_event_is_skipped functionName e st :
  documentation e = DocPrim PNull
  \/ (truthy (private e) = true /\ documented (documentation e) = false) ->
  scanEvent createSchema functionName {| http := HttpObject e |} st
  = Ok ({| http := HttpObject e |}, st).
Proof.
  intros [Hnull|[Hprivate Hfalsy]].
  - by apply scanEvent_null.
  - by apply scanEvent_private.
Qed.

(** A run over functions whose events are all of this kind records nothing
    and returns. *)
Lemma run_over_opted_out_events functions st :
  plain_keys functions = true ->
  functionsMissingDocumentation st = [] ->
  (forall functionName events event,
      In (functionName, events) functions -> In event events ->
      exists e, event = {| http := HttpObject e |}
                /\ (documentation e = DocPrim PNull
                    \/ (truthy (private e) = true
                        /\ documented (documentation e) = false))) ->
  populateServerlessWithModels createSchema functions st = Ok (functions, st).
Proof.
  intros Hplain Hempty Hall.
  assert (Hevents : forall functionName events,
             (forall event, In event events ->
                exists e, event = {| http := HttpObject e |}
                          /\ (documentation e = DocPrim PNull
                              \/ (truthy (private e) = true
                                  /\ documented (documentation e) = false))) ->
             forEach (scanEvent createSchema functionName) events st = Ok (events, st)).
  { intros functionName events. induction events as [|event events IH]; intros H; [done|].
    simpl. unfold bind. destruct (H event) as (e & -> & He); [by left|].
    assert (Hev : scanEvent createSchema functionName {| http := HttpObject e |} st
                  = Ok ({| http := HttpObject e |}, st)).
    { destruct He as [Hd|[Hp Hd]]; [by apply scanEvent_null | by apply scanEvent_private]. }
    rewrite Hev, IH; [done|]. intros ev Hin. apply H. by right. }
  assert (Hscan : scanFunctions createSchema functions st = Ok (functions, st)).
  { unfold scanFunctions.
    assert (Hkey : forall key, has_key functions (key +:+ ".events") = false)
      by (intros key; by apply has_key_plain).
    revert Hkey. generalize functions at 1 2 as all. intros all Hkey.
    unfold plain_keys in Hplain.
    induction functions as [|[name events] functions IH]; [done|].
    cbn [forallb fst] in Hplain. apply andb_true_iff in Hplain as [Hname Hplain].
    assert (Hf : scanFunction createSchema all (name, events) st = Ok ((name, events), st)).
    { unfold scanFunction, bind. cbn [fst snd]. rewrite Hkey, Hname, Hevents; [done|].
      intros ev Hev. apply (Hall name events); [by left | done]. }
    simpl. unfold bind. rewrite Hf, IH; [done..|].
    intros fn evs ev Hin. apply (Hall fn evs ev). by right. }
  unfold populateServerlessWithModels, bind. rewrite Hscan.
  unfold assertAllFunctionsDocumented. by rewrite Hempty.
Qed.

(** C10.  A [documentation] that is falsy without being [null] ([undefined],
    [false], [0], the empty string) on an event that is not private is
    scanned as a missing key is: the event is left as it is and the function
    name is pushed; a run over functions with such an event, under keys
    without [.], [[] and []], ends in an exception, and when the scan reaches
    its end that exception is the [Error] of [assertAllFunctionsDocumented],
    with the function among those it names. *)
Theorem falsy_documentation_is_missing functionName e p st :
  documentation e = DocPrim p ->
  truthy_prim p = false ->
  p <> PNull ->
  truthy (private e) = false ->
  scanEvent createSchema functionName {| http := HttpObject e |} st
  = Ok ({| http := HttpObject e |}, push_missing st functionName)
  /\ scanEvent createSchema functionName
       {| http := HttpObject (set_documentation e DocAbsent) |} st
     = Ok ({| http := HttpObject (set_documentation e DocAbsent) |},
           push_missing st functionName)
  /\ forall functions events st0,
       plain_keys functions = true ->
       In (functionName, events) functions -> In {| http := HttpObject e |} events ->
       (exists ex, populateServerlessWithModels createSchema functions st0 = Throw ex)
       /\ forall functions' st',
            scanFunctions createSchema functions st0 = Ok (functions', st') ->
            populateServerlessWithModels createSchema functions st0
            = Throw (Error (missing_message (functionsMissingDocumentation st')))
            /\ In functionName (functionsMissingDocumentation st').
Proof.
  intros Hd Hf Hn Hp.
  assert (Hnn : not_null (DocPrim p) = true) by by destruct p.
  split; [|split].
  - unfold scanEvent. cbn [http]. rewrite Hd. cbn [documented]. by rewrite Hf, Hnn, Hp.
  - unfold scanEvent. simpl. by rewrite Hp.
  - intros functions events st0 Hplain Hin Hev.
    assert (Hu : undocumented {| http := HttpObject e |} = true).
    { unfold undocumented. cbn [http]. rewrite Hd. cbn [documented].
      by rewrite Hf, Hnn, Hp. }
    assert (Hafter : forall functions' st',
               scanFunctions createSchema functions st0 = Ok (functions', st') ->
               populateServerlessWithModels createSchema functions st0
               = Throw (Error (missing_message (missing st')))
               /\ In functionName (missing st')).
    { intros functions' st' Hscan.
      assert (In functionName (missing st')) as Hmem.
      { rewrite (scanFunctions_missing _ _ _ _ Hplain Hscan). apply in_or_app. right.
        by eapply offenders_In. }
      split; [|done]. apply (populate_after_scan _ _ _ _ Hscan).
      intros Hnil. by rewrite Hnil in Hmem. }
    split; [|done].
    destruct (scanFunctions createSchema functions st0) as [[functions' st']|ex] eqn:Hscan.
    + eexists. by apply (Hafter functions' st').
    + exists ex. by apply populate_after_throw.
Qed.

End Scan.

(** ** Post-processing *)

Lemma mapM_Ok {A B} (f : A -> Result B) (g : A -> B) (l : list A) :
  (forall x, In x l -> f x = Ok (g x)) -> mapM f l = Ok (g <$> l).
Proof.
  induction l as [|x l IH]; intros H; simpl; [done|].
  rewrite (H x) by by left. simpl. rewrite IH; [done|].
  intros y Hy. apply H. by right.
Qed.

Lemma tag_operations operations tagName :
  is_path_item (JObj operations) = true ->
  forEach_value (fun method => assign_member method "tags" (JArr [tagName]))
    (JObj operations)
  = Ok (tagged_path_item tagName (JObj operations)).
Proof.
  simpl. intros H.
  rewrite (mapM_Ok _ (fun kv => (fst kv, tagged_operation tagName (snd kv)))); [done|].
  intros [method operation] Hin. simpl.
  rewrite forallb_forall in H. specialize (H _ Hin). simpl in H.
  by destruct operation.
Qed.

Lemma tag_paths paths tagName :
  forallb (fun kv => is_path_item (snd kv)) paths = true ->
  forEach_value
    (fun path =>
       forEach_value (fun method => assign_member method "tags" (JArr [tagName])) path)
    (JObj paths)
  = Ok (JObj ((fun kv => (fst kv, tagged_path_item tagName (snd kv))) <$> paths)).
Proof.
  intros H. cbn [forEach_value].
  rewrite (mapM_Ok _ (fun kv => (fst kv, tagged_path_item tagName (snd kv)))); [done|].
  intros [path item] Hin. cbn [fst snd].
  rewrite forallb_forall in H. specialize (H _ Hin). cbn [snd] in H.
  destruct item as [| |operations]; try done.
  by rewrite (tag_operations _ _ H).
Qed.


Section PostProcessing.

Variable yaml_load : string -> Result JsVal.
Variable yaml_dump : JsVal -> Result string.

(** What [postProcessOpenApi] does depends on the text of the path and not
    on what the file at that path holds. *)
Lemma postProcessOpenApi_ignores_the_file outputFile (files1 files2 : gmap string string) :
  match postProcessOpenApi yaml_load yaml_dump outputFile files1,
        postProcessOpenApi yaml_load yaml_dump outputFile files2 with
  | Ok files1', Ok files2' => files1' !! outputFile = files2' !! outputFile
  | Throw e1, Throw e2 => e1 = e2
  | _, _ => False
  end.
Proof.
  unfold postProcessOpenApi.
  destruct (yaml_load outputFile) as [openApi|]; simpl; [|done].
  destruct (patchOpenApiVersion openApi) as [openApi1|]; simpl; [|done].
  destruct (tagMethods openApi1) as [openApi2|]; simpl; [|done].
  destruct (yaml_dump openApi2) as [data|]; simpl; [|done].
  unfold writeFileSync. by rewrite !lookup_insert_eq.
Qed.

(** A path whose text is a YAML scalar ends the post-processing with a
    [TypeError], before anything is written. *)
Lemma postProcessOpenApi_scalar outputFile p (files : gmap string string) :
  yaml_load outputFile = Ok (JPrim p) ->
  postProcessOpenApi yaml_load yaml_dump outputFile files = Throw TypeError.
Proof. intros H. unfold postProcessOpenApi. by rewrite H. Qed.

End PostProcessing.

(** C6, on the code.  With [openapi.yml] holding an OpenAPI 3.0.0 document,
    [postProcessOpenApi] parses the text of the path, a scalar, in place of
    the text of the file; setting [openapi] on that string throws, and the
    file is not written. *)
Theorem postProcessOpenApi_parses_the_path :
  Examples.files !! "openapi.yml" = Some Examples.orders_text
  /\ Examples.load Examples.orders_text = Ok (JObj Examples.orders_api)
  /\ postProcessOpenApi Examples.load Examples.dump "openapi.yml" Examples.files
     = Throw TypeError.
Proof. by vm_compute. Qed.

(** * The theorems at concrete configurations *)

(** ** The scan *)

(** A schema the generator cannot produce ends the scan at once: [getUser]
    is documented and has no type declared, [listUsers] lacks its
    documentation, and the run throws the generator's error without having
    visited [listUsers]. *)
Lemma scan_interrupted_by_schema_error :
  ~ (forall (createSchema : string -> option JsVal) functions st,
        (exists functionName events e,
            In (functionName, events) functions /\ In {| http := HttpObject e |} events
            /\ documentation e = DocAbsent /\ truthy (private e) = false) ->
        exists functions' st' message,
          scanFunctions createSchema functions st = Ok (functions', st')
          /\ populateServerlessWithModels createSchema functions st
             = Throw (Error message)).
Proof.
  intros H.
  destruct (H Examples.noSchema Examples.two_functions Examples.plugin0)
    as (functions' & st' & message & Hscan & _).
  - exists "listUsers",
      [{| http := HttpObject (Examples.httpEvent "get" JUndefined DocAbsent) |}],
      (Examples.httpEvent "get" JUndefined DocAbsent).
    split; [right; left; reflexivity|]. split; [left; reflexivity|]. done.
  - vm_compute in Hscan. discriminate.
Qed.

(** A private event that has a documentation is documented like any other:
    its response model is registered. *)
Lemma private_documented_event_is_synthesized :
  ~ (forall (createSchema : string -> option JsVal) functionName e st,
        documentation e = DocPrim PNull \/ truthy (private e) = true ->
        scanEvent createSchema functionName {| http := HttpObject e |} st
        = Ok ({| http := HttpObject e |}, st)).
Proof.
  intros H.
  specialize (H Examples.anySchema "getUser" Examples.private_documented Examples.plugin0).
  vm_compute in H. discriminate H. by right.
Qed.

Lemma opted_out_event_is_skipped_witness :
  scanEvent Examples.anySchema "getUser"
    {| http := HttpObject (Examples.httpEvent "get" (JBool true) DocAbsent) |} Examples.plugin0
  = Ok ({| http := HttpObject (Examples.httpEvent "get" (JBool true) DocAbsent) |},
        Examples.plugin0)
  /\ scanEvent Examples.anySchema "getUser"
       {| http := HttpObject (Examples.httpEvent "get" JUndefined (DocPrim PNull)) |}
       Examples.plugin0
     = Ok ({| http := HttpObject (Examples.httpEvent "get" JUndefined (DocPrim PNull)) |},
           Examples.plugin0).
Proof.
  split.
  - apply opted_out_event_is_skipped. right. split; reflexivity.
  - apply opted_out_event_is_skipped. left. reflexivity.
Defined.

Lemma falsy_documentation_is_missing_witness :
  scanEvent Examples.anySchema "getUser"
    {| http := HttpObject (Examples.httpEvent "get" JUndefined (DocPrim (PBool false))) |}
    Examples.plugin0
  = Ok ({| http := HttpObject (Examples.httpEvent "get" JUndefined (DocPrim (PBool false))) |},
        push_missing Examples.plugin0 "getUser")
  /\ populateServerlessWithModels Examples.anySchema
       [("getUser",
         [{| http := HttpObject
                       (Examples.httpEvent "get" JUndefined (DocPrim (PBool false))) |}])]
       Examples.plugin0
     = Throw (Error (missing_message ["getUser"])).
Proof.
  destruct (falsy_documentation_is_missing Examples.anySchema "getUser"
              (Examples.httpEvent "get" JUndefined (DocPrim (PBool false)))
              (PBool false) Examples.plugin0)
    as (Hevent & _ & Hrun); [reflexivity | reflexivity | discriminate | reflexivity |].
  split; [exact Hevent|].
  destruct (Hrun
              [("getUser",
                [{| http := HttpObject
                              (Examples.httpEvent "get" JUndefined
                                 (DocPrim (PBool false))) |}])]
              [{| http := HttpObject
                            (Examples.httpEvent "get" JUndefined (DocPrim (PBool false))) |}]
              Examples.plugin0 eq_refl) as [_ Hafter];
    [left; reflexivity | left; reflexivity |].
  destruct (Hafter
              [("getUser",
                [{| http := HttpObject
                              (Examples.httpEvent "get" JUndefined
                                 (DocPrim (PBool false))) |}])]
              (push_missing Examples.plugin0 "getUser") eq_refl) as [Hthrow _].
  exact Hthrow.
Defined.

(** Under a key with a dot the events of a function are not scanned: the
    path [get.user.events] leads lodash to no function.  The event of
    [get.user] lacks its documentation, and the run returns. *)
Lemma dotted_key_is_not_scanned :
  populateServerlessWithModels Examples.anySchema MoreExamples.dotted_service
    Examples.plugin0
  = Ok (MoreExamples.dotted_service, Examples.plugin0).
Proof. reflexivity. Qed.

(** Where the text of the path is itself a key, [get] returns the function
    under that key in place of an array of events, and the scan throws. *)
Lemma path_text_as_key_throws :
  populateServerlessWithModels Examples.anySchema
    [("getUser", []); ("getUser.events", [])] Examples.plugin0
  = Throw TypeError.
Proof. reflexivity. Qed.

(** ** The generator and the registry *)



Lemma setModel_appends_witness :
  exists st',
    setModel Examples.anySchema "Api.GetUser.Response"
      (registered Examples.plugin0 "Api.GetUser.Response" (JObj [])) = Ok (tt, st')
    /\ registry st'
       = [model_entry "Api.GetUser.Response" (JObj []);
          model_entry "Api.GetUser.Response"
            (JObj [("title", JStr "Api.GetUser.Response"); ("type", JStr "object")])].
Proof.
  destruct (setModel_appends Examples.anySchema "Api.GetUser.Response"
              (JObj [("title", JStr "Api.GetUser.Response"); ("type", JStr "object")])
              (registered Examples.plugin0 "Api.GetUser.Response" (JObj [])))
    as (st' & Hrun & Hregistry & _); [reflexivity|].
  exists st'. split; [exact Hrun | exact Hregistry].
Defined.

(** ** Model synthesis *)

(** For the function [create-order] the request model is
    [Api.Create-order.Request.Body]: [upperFirst] leaves the hyphen where
    PascalCase joins the words. *)
Lemma model_name_is_not_PascalCase :
  ~ (forall (createSchema : string -> option JsVal) e functionName st request response,
        documented (documentation e) = true ->
        with_body (toLowerCase (method e)) ->
        createSchema (apiNamespace st +:+ "." +:+ spec_PascalCase functionName
                      +:+ ".Request.Body") = Some request ->
        createSchema (apiNamespace st +:+ "." +:+ spec_PascalCase functionName
                      +:+ ".Response") = Some response ->
        exists doc st',
          setModels createSchema e functionName st
          = Ok (set_documentation e (DocObj doc), st')
          /\ get_prop doc "requestModels"
             = JObj [("application/json",
                      JStr (apiNamespace st +:+ "." +:+ spec_PascalCase functionName
                            +:+ ".Request.Body"))]).
Proof.
  intros H.
  destruct (H Examples.anySchema
              (Examples.httpEvent "POST" JUndefined (DocObj Examples.summary))
              "create-order" Examples.plugin0 _ _
              eq_refl (or_intror (or_intror eq_refl)) eq_refl eq_refl)
    as (doc & st' & Hrun & Hget).
  vm_compute in Hrun. injection Hrun as <- <-. vm_compute in Hget. discriminate.
Qed.

(** On function names made of letters and digits the two agree. *)
Lemma spec_PascalCase_alnum functionName :
  all_alnum functionName = true -> spec_PascalCase functionName = upperFirst functionName.
Proof.
  destruct functionName as [|c s]; [done|].
  unfold spec_PascalCase. simpl. intros [-> Hs]%andb_true_iff. f_equal.
  induction s as [|c' s IH]; [done|]. simpl in *.
  apply andb_true_iff in Hs as [-> Hs]. f_equal. auto.
Qed.

Lemma setModels_by_method_witness :
  exists doc st',
    setModels Examples.anySchema
      (Examples.httpEvent "Post" JUndefined (DocObj Examples.summary))
      "createOrder" Examples.plugin0
    = Ok (set_documentation
            (Examples.httpEvent "Post" JUndefined (DocObj Examples.summary))
            (DocObj doc), st')
    /\ map (fun entry => match entry with JObj o => get_prop o "name" | _ => JUndefined end)
         (registry st')
       = [JStr "Api.CreateOrder.Request.Body"; JStr "Api.CreateOrder.Response"]
    /\ get_prop doc "requestModels"
       = JObj [("application/json", JStr "Api.CreateOrder.Request.Body")].
Proof.
  destruct (setModels_by_method Examples.anySchema
              (Examples.httpEvent "Post" JUndefined (DocObj Examples.summary))
              "createOrder" Examples.plugin0 eq_refl) as [Hbody _].
  destruct (Hbody _ _ (or_intror (or_intror eq_refl)) eq_refl eq_refl)
    as (doc & st' & Hrun & Hregistry & Hrequest & _).
  exists doc, st'. split; [exact Hrun|]. split; [|exact Hrequest].
  rewrite Hregistry. reflexivity.
Defined.

Lemma delete_yields_204_witness :
  exists doc,
    setModels Examples.noSchema
      (Examples.httpEvent "DELETE" JUndefined
         (DocObj [("methodResponses", JArr [JObj [("statusCode", JNum 200)]])]))
      "deleteOrder" Examples.plugin0
    = Ok (set_documentation
            (Examples.httpEvent "DELETE" JUndefined
               (DocObj [("methodResponses", JArr [JObj [("statusCode", JNum 200)]])]))
            (DocObj doc), Examples.plugin0)
    /\ get_prop doc "methodResponses"
       = JArr [JObj [("statusCode", JNum 204); ("responseModels", JObj [])]].
Proof.
  destruct (delete_yields_204 Examples.noSchema
              (Examples.httpEvent "DELETE" JUndefined
                 (DocObj [("methodResponses", JArr [JObj [("statusCode", JNum 200)]])]))
              "deleteOrder" Examples.plugin0 eq_refl eq_refl)
    as (doc & Hrun & Hget & _).
  exists doc. split; [exact Hrun | exact Hget].
Defined.

(** ** Post-processing *)



(** * Further properties *)

Set Warnings "-clear-no-such-hyp".

(** ** Model synthesis, the other cases *)

Lemma set_prop_same (o : JsObj) k :
  has_prop o k = true -> set_prop o k (get_prop o k) = o.
Proof.
  induction o as [|[k0 v0] o IH]; simpl; [done|].
  destruct (String.eqb k0 k) eqn:E; simpl; [done|]. intros H. by rewrite IH.
Qed.

Lemma set_documentation_twice e d d' :
  set_documentation (set_documentation e d) d' = set_documentation e d'.
Proof. reflexivity. Qed.

Lemma lodash_set_documentation_twice e key value :
  lodash_set_documentation (lodash_set_documentation e key value) key value
  = lodash_set_documentation e key value.
Proof.
  unfold lodash_set_documentation. simpl. by rewrite set_prop_twice.
Qed.

(** A key that holds the value already keeps the documentation as it is. *)
Lemma lodash_set_documentation_same e o key value :
  documentation e = DocObj o -> has_prop o key = true -> get_prop o key = value ->
  lodash_set_documentation e key value = e.
Proof.
  intros Ho Hh Hg. unfold lodash_set_documentation. rewrite Ho, <- Hg, set_prop_same by done.
  destruct e. simpl in *. by rewrite Ho.
Qed.

(** The three keys of a method with a body, written a second time. *)
Lemma body_sets_again e requestModels requestBody methodResponses :
  let e1 :=
    lodash_set_documentation
      (lodash_set_documentation
         (lodash_set_documentation e "requestModels" requestModels)
         "requestBody" requestBody)
      "methodResponses" methodResponses in
  lodash_set_documentation
    (lodash_set_documentation
       (lodash_set_documentation e1 "requestModels" requestModels)
       "requestBody" requestBody)
    "methodResponses" methodResponses
  = e1.
Proof.
  intros e1.
  set (o := match documentation e with DocObj o => o | _ => [] end).
  set (o3 := set_prop (set_prop (set_prop o "requestModels" requestModels)
                         "requestBody" requestBody)
               "methodResponses" methodResponses).
  assert (H1 : documentation e1 = DocObj o3) by reflexivity.
  rewrite (lodash_set_documentation_same e1 o3 "requestModels" requestModels H1).
  - rewrite (lodash_set_documentation_same e1 o3 "requestBody" requestBody H1).
    + rewrite (lodash_set_documentation_same e1 o3 "methodResponses" methodResponses H1);
        [done | |].
      * subst o3. rewrite !has_prop_set. done.
      * subst o3. by rewrite get_prop_set_eq.
    + subst o3. rewrite !has_prop_set. done.
    + subst o3. rewrite get_prop_set_ne by done. by rewrite get_prop_set_eq.
  - subst o3. rewrite !has_prop_set. done.
  - subst o3. rewrite !get_prop_set_ne by done. by rewrite get_prop_set_eq.
Qed.

Section SynthesisMore.

Variable createSchema : string -> option JsVal.

(** X1.  A method that is none of DELETE, PATCH, PUT, POST and GET, whatever
    the case of its letters, falls through the switch: the event and the
    plugin are returned as they were, nothing is registered and the generator
    is not called. *)
Theorem setModels_other_method e functionName st :
  toLowerCase (method e) <> "delete" ->
  ~ with_body (toLowerCase (method e)) ->
  toLowerCase (method e) <> "get" ->
  setModels createSchema e functionName st = Ok (e, st).
Proof.
  intros Hd Hb Hg. unfold setModels, with_body in *.
  destruct (String.eqb_spec (toLowerCase (method e)) "delete"); [done|].
  destruct (String.eqb_spec (toLowerCase (method e)) "patch"); [tauto|].
  destruct (String.eqb_spec (toLowerCase (method e)) "put"); [tauto|].
  destruct (String.eqb_spec (toLowerCase (method e)) "post"); [tauto|].
  destruct (String.eqb_spec (toLowerCase (method e)) "get"); [done|].
  done.
Qed.

Lemma with_body_select m :
  with_body m ->
  String.eqb m "delete" = false
  /\ String.eqb m "patch" || String.eqb m "put" || String.eqb m "post" = true.
Proof. intros [->|[->| ->]]; by vm_compute. Qed.

(** X2.  A schema the generator cannot produce ends [setModels] with the
    generator's error for that model: for a method with a body the request
    model is asked for first, and the response model only when the request
    model was registered; for GET the response model alone. *)
Theorem setModels_schema_error e functionName st :
  let request := definition_prefix st functionName +:+ ".Request.Body" in
  let response := definition_prefix st functionName +:+ ".Response" in
  (with_body (toLowerCase (method e)) ->
   createSchema request = None ->
   setModels createSchema e functionName st = Throw (SchemaError request))
  /\ (with_body (toLowerCase (method e)) ->
      createSchema request <> None -> createSchema response = None ->
      setModels createSchema e functionName st = Throw (SchemaError response))
  /\ (toLowerCase (method e) = "get" ->
      createSchema response = None ->
      setModels createSchema e functionName st = Throw (SchemaError response)).
Proof.
  intros request response. subst request response. repeat split.
  - intros [Hd Hb]%with_body_select Hq. unfold setModels. rewrite Hd, Hb.
    unfold bind at 1. by rewrite (setModel_throw _ _ _ Hq).
  - intros [Hd Hb]%with_body_select Hq Hr. unfold setModels. rewrite Hd, Hb.
    destruct (createSchema (definition_prefix st functionName +:+ ".Request.Body"))
      as [schema|] eqn:E; [|done].
    unfold bind at 1. rewrite (setModel_ok _ _ _ _ E).
    unfold case_get, bind. by rewrite (setModel_throw _ _ _ Hr).
  - intros Hm Hr. unfold setModels. rewrite Hm. simpl.
    unfold case_get, bind. by rewrite (setModel_throw _ _ _ Hr).
Qed.

Lemma definition_prefix_registered st modelName schema functionName :
  definition_prefix (registered st modelName schema) functionName
  = definition_prefix st functionName.
Proof. unfold definition_prefix. by rewrite apiNamespace_registered. Qed.

Lemma case_get_Ok definitionPrefix e st e1 st1 :
  case_get createSchema definitionPrefix e st = Ok (e1, st1) ->
  exists schema,
    createSchema (definitionPrefix +:+ ".Response") = Some schema
    /\ e1 = lodash_set_documentation e "methodResponses"
              (ok_responses (definitionPrefix +:+ ".Response"))
    /\ st1 = registered st (definitionPrefix +:+ ".Response") schema.
Proof.
  destruct (createSchema (definitionPrefix +:+ ".Response")) as [schema|] eqn:E.
  - rewrite (case_get_ok _ _ _ _ _ E). intros [= <- <-]. by exists schema.
  - unfold case_get, bind. by rewrite (setModel_throw _ _ _ E).
Qed.

(** X3.  [setModels] on an event it has been through already leaves the event
    as it is and registers the same models once more: the registry ends with
    a second copy of the entries the first call added. *)
Theorem setModels_twice e functionName st e1 st1 :
  setModels createSchema e functionName st = Ok (e1, st1) ->
  exists st2,
    setModels createSchema e1 functionName st1 = Ok (e1, st2)
    /\ registry st2 = registry st1 ++ drop (length (registry st)) (registry st1).
Proof.
  intros H. unfold setModels in H.
  destruct (String.eqb (toLowerCase (method e)) "delete") eqn:Hd.
  { injection H as <- <-. exists st. split.
    - unfold setModels. cbn [lodash_set_documentation set_documentation method].
      rewrite Hd. unfold ret. f_equal. f_equal.
      apply lodash_set_documentation_twice.
    - by rewrite drop_all, app_nil_r. }
  destruct (String.eqb (toLowerCase (method e)) "patch"
            || String.eqb (toLowerCase (method e)) "put"
            || String.eqb (toLowerCase (method e)) "post") eqn:Hb.
  { apply bind_Ok in H as ([] & st0 & Hq & Hg).
    set (prefix := definition_prefix st functionName) in *.
    destruct (createSchema (prefix +:+ ".Request.Body")) as [request|] eqn:Eq;
      [|by rewrite (setModel_throw _ _ _ Eq) in Hq].
    rewrite (setModel_ok _ _ _ _ Eq) in Hq. injection Hq as <-.
    apply case_get_Ok in Hg as (response & Er & -> & ->).
    set (st1 := registered (registered st (prefix +:+ ".Request.Body") request)
                  (prefix +:+ ".Response") response).
    assert (Hp : definition_prefix st1 functionName = prefix).
    { subst st1. by rewrite !definition_prefix_registered. }
    eexists. split.
    - unfold setModels. cbn [lodash_set_documentation set_documentation method].
      rewrite Hd, Hb, Hp. unfold bind at 1. rewrite (setModel_ok _ _ _ _ Eq).
      rewrite (case_get_ok _ _ _ _ _ Er). f_equal. f_equal.
      apply body_sets_again.
    - rewrite !registry_registered. subst st1. rewrite !registry_registered.
      rewrite <- !app_assoc, drop_app_length. done. }
  destruct (String.eqb (toLowerCase (method e)) "get") eqn:Hg.
  { apply case_get_Ok in H as (response & Er & -> & ->).
    set (prefix := definition_prefix st functionName) in *.
    eexists. split.
    - unfold setModels. cbn [lodash_set_documentation set_documentation method].
      rewrite Hd, Hb, Hg, definition_prefix_registered. fold prefix.
      rewrite (case_get_ok _ _ _ _ _ Er). f_equal. f_equal.
      apply lodash_set_documentation_twice.
    - rewrite !registry_registered, drop_app_length. done. }
  injection H as <- <-. exists st. split.
  - unfold setModels. by rewrite Hd, Hb, Hg.
  - by rewrite drop_all, app_nil_r.
Qed.

End SynthesisMore.

(** ** The loop of [setDefaultParamsDocumentation] *)

Lemma find_param_inv name l i0 found :
  find_param name l i0 = Ok found ->
  match found with
  | None => Forall (fun v => has_name name v = false /\ nullish v = false) l
  | Some (i, p) => exists j, i = i0 + j /\ first_match name l j p
  end.
Proof.
  revert i0. induction l as [|v l IH]; intros i0; simpl.
  - intros [= <-]. constructor.
  - assert (Hrec : nullish v = false -> has_name name v = false ->
                   find_param name l (S i0) = Ok found ->
                   match found with
                   | None => Forall (fun v => has_name name v = false /\ nullish v = false)
                               (v :: l)
                   | Some (i, p) => exists j, i = i0 + j /\ first_match name (v :: l) j p
                   end).
    { intros Hv Hn H. apply IH in H. destruct found as [[i p]|].
      - destruct H as (j & -> & Hj & Hp & Hbefore). exists (S j). split; [lia|].
        split; [done|]. split; [done|].
        intros [|j'] v' Hlt; simpl.
        + by intros [= <-].
        + intros Hv'. apply (Hbefore j' v'); [lia | done].
      - by constructor. }
    destruct v as [[]| |p]; try done; try (by apply Hrec).
    destruct (is_string name (get_prop p "name")) eqn:E; [|by apply Hrec].
    intros [= <-]. exists 0. split; [lia|]. split; [done|]. split; [done|]. intros; lia.
Qed.

Lemma good_entries_searchable l :
  Forall good_entry l -> forallb (fun x => negb (nullish x)) l = true.
Proof.
  induction 1 as [|v l [Hv _] _ IH]; [done|]. simpl. by rewrite Hv, IH.
Qed.

Lemma documented_params_set o key l :
  documented_params (set_prop o key (JArr l)) key = Some l.
Proof. unfold documented_params. by rewrite get_prop_set_eq. Qed.

Lemma has_name_is name v :
  has_name name v = true <-> exists p, v = JObj p /\ get_prop p "name" = JStr name.
Proof.
  destruct v as [| |p]; simpl; try (split; [done | by intros (? & ? & ?)]).
  unfold is_string. split.
  - destruct (get_prop p "name") as [[]| |] eqn:E; try done.
    intros ->%String.eqb_eq. by exists p.
  - intros (q & [= <-] & ->). apply String.eqb_refl.
Qed.

Lemma get_prop_has_prop (o : JsObj) k : get_prop o k <> JUndefined -> has_prop o k = true.
Proof.
  intros H. destruct (has_prop o k) eqn:E; [done|]. by rewrite has_prop_false_get in H.
Qed.

Lemma set_documentation_same e : set_documentation e (documentation e) = e.
Proof. by destruct e. Qed.

Lemma get_prop_of_elem (o : JsObj) k v :
  NoDup o.*1 -> (k, v) ∈ o -> get_prop o k = v /\ has_prop o k = true.
Proof.
  induction o as [|[k0 v0] o IH]; simpl; [by intros _ ?%elem_of_nil|].
  intros [Hn Hnd]%NoDup_cons [[= <- <-]|Hin]%elem_of_cons.
  - by rewrite String.eqb_refl.
  - destruct (String.eqb k0 k) eqn:E.
    + apply String.eqb_eq in E as ->. destruct Hn.
      apply list_elem_of_fmap. by exists (k, v).
    + simpl. by apply IH.
Qed.

(** [Object.assign] of properties the target has already, with the values it
    has: the target. *)
Lemma object_assign_same (target source : JsObj) :
  (forall k v, (k, v) ∈ source -> has_prop target k = true /\ get_prop target k = v) ->
  object_assign target source = target.
Proof.
  unfold object_assign. induction source as [|[k v] s IH]; intros H; simpl; [done|].
  destruct (H k v) as [Hh <-]; [by left|].
  rewrite set_prop_same by done. apply IH. intros k' v' Hin. apply H. by right.
Qed.

Lemma default_keys_NoDup name required :
  NoDup (paramDocumentationFromSls name required).*1.
Proof.
  simpl. repeat (apply NoDup_cons; split;
                 [rewrite ?elem_of_cons, ?elem_of_nil; intuition discriminate|]).
  apply NoDup_nil_2.
Qed.

Lemma has_prop_default name required k :
  has_prop (paramDocumentationFromSls name required) k
  = String.eqb "name" k || String.eqb "required" k || String.eqb "schema" k.
Proof.
  unfold paramDocumentationFromSls. cbn [has_prop]. by rewrite orb_false_r, !orb_assoc.
Qed.

(** The merge of an entry that has the three fields is the entry. *)
Lemma merge_complete P p name required :
  complete P p ->
  object_assign p (object_assign (paramDocumentationFromSls name required) p) = p.
Proof.
  intros (Hnd & Hn & Hr & Hs & _). apply object_assign_same. intros k v Hin.
  pose proof (default_keys_NoDup name required) as Hd.
  destruct (get_prop_of_elem _ k v (keys_assign_NoDup p _ Hd) Hin) as [Hget Hhas].
  rewrite has_prop_assign, has_prop_default in Hhas.
  assert (Hk : has_prop p k = true).
  { destruct (has_prop p k) eqn:E; [done|]. cbn [orb] in Hhas.
    destruct (String.eqb_spec "name" k) as [<-|]; [congruence|].
    destruct (String.eqb_spec "required" k) as [<-|]; [congruence|].
    destruct (String.eqb_spec "schema" k) as [<-|]; [congruence|]. done. }
  split; [done|]. by rewrite get_prop_assign, Hk in Hget.
Qed.

Lemma get_prop_schema_resolved_ne existing schema k :
  k <> "schema" -> get_prop (schema_resolved existing schema) k = get_prop existing k.
Proof.
  intros Hk. unfold schema_resolved.
  destruct (get_prop existing "schema") as [[]| |]; try done.
  destruct schema; [|done]. by apply get_prop_set_ne.
Qed.

Lemma documented_params_nonempty o key l :
  documented_params o key = Some l -> l <> [] -> get_prop o key = JArr l.
Proof.
  unfold documented_params. destruct (truthy (get_prop o key)); [|by intros [= <-]].
  destruct (get_prop o key); congruence.
Qed.

Lemma first_match_same_entry name m l i p q :
  first_match name l i p -> first_match m l i q -> name = m.
Proof.
  intros (Hi & Hn & _) (Hi' & Hm & _). rewrite Hi in Hi'. injection Hi' as <-.
  apply has_name_is in Hn as (p1 & [= <-] & Hn).
  apply has_name_is in Hm as (p2 & [= <-] & Hm). congruence.
Qed.

Lemma has_name_same_name n p q :
  get_prop q "name" = get_prop p "name" -> has_name n (JObj q) = has_name n (JObj p).
Proof. intros H. simpl. by rewrite H. Qed.

(** The merge keeps the name of the entry, gives it the three fields and
    distinct keys. *)
Lemma merged_entry existing schema name required :
  NoDup existing.*1 ->
  has_prop existing "name" = true ->
  let existing1 := schema_resolved existing schema in
  let merged :=
    object_assign existing1
      (object_assign (paramDocumentationFromSls name required) existing1) in
  NoDup merged.*1
  /\ get_prop merged "name" = get_prop existing "name"
  /\ has_prop merged "name" = true /\ has_prop merged "required" = true
  /\ has_prop merged "schema" = true
  /\ get_prop merged "schema"
     = if has_prop existing "schema" then get_prop existing1 "schema"
       else JObj [("type", JStr "string")].
Proof.
  intros Hnd Hname existing1 merged. subst merged.
  assert (H1 : NoDup existing1.*1) by by apply keys_schema_resolved_NoDup.
  pose proof (default_keys_NoDup name required) as Hd.
  split; [by apply keys_assign_NoDup|].
  split.
  { destruct (merge_fields existing1 _ "name" H1 Hd) as [-> _].
    subst existing1. rewrite has_prop_schema_resolved, Hname.
    by apply get_prop_schema_resolved_ne. }
  repeat split.
  - destruct (merge_fields existing1 _ "name" H1 Hd) as [_ ->]. by rewrite orb_true_r.
  - destruct (merge_fields existing1 _ "required" H1 Hd) as [_ ->]. by rewrite orb_true_r.
  - destruct (merge_fields existing1 _ "schema" H1 Hd) as [_ ->]. by rewrite orb_true_r.
  - destruct (merge_fields existing1 _ "schema" H1 Hd) as [-> _].
    subst existing1. by rewrite has_prop_schema_resolved.
Qed.

(** *** One turn of the loop, on the list *)

Lemma first_match_unique name l i p i' p' :
  first_match name l i p -> first_match name l i' p' -> i = i' /\ p = p'.
Proof.
  intros (Hi & Hn & Hb) (Hi' & Hn' & Hb').
  assert (i = i') as <-.
  { destruct (Nat.lt_trichotomy i i') as [Hlt|[->|Hlt]]; [|done|].
    - destruct (Hb' i _ Hlt Hi) as [Hf _]. congruence.
    - destruct (Hb i' _ Hlt Hi') as [Hf _]. congruence. }
  split; [done|]. congruence.
Qed.

Lemma first_match_some name l i p :
  first_match name l i p -> existsb (has_name name) l = true.
Proof.
  intros (Hi & Hn & _). apply existsb_exists. exists (JObj p). split; [|done].
  apply list_elem_of_In. by eapply list_elem_of_lookup_2.
Qed.

Lemma no_match_none name l :
  Forall (fun v => has_name name v = false /\ nullish v = false) l ->
  existsb (has_name name) l = false.
Proof. induction 1 as [|v l [Hv _] _ IH]; [done|]. simpl. by rewrite Hv, IH. Qed.

Lemma has_name_other name m v :
  has_name name v = true -> m <> name -> has_name m v = false.
Proof.
  intros (p & -> & Hp)%has_name_is Hne.
  destruct (has_name m (JObj p)) eqn:E; [|done].
  apply has_name_is in E as (q & [= <-] & Hq). congruence.
Qed.

Lemma has_name_default m name required :
  m <> name -> has_name m (JObj (paramDocumentationFromSls name required)) = false.
Proof.
  intros Hne. change (String.eqb name m = false). by destruct (String.eqb_spec name m).
Qed.

Lemma existsb_insert {A} (f : A -> bool) l i x y :
  l !! i = Some x -> f y = f x -> existsb f (<[i := y]> l) = existsb f l.
Proof.
  revert i. induction l as [|z l IH]; intros [|i]; simpl; try done.
  - by intros [= ->] ->.
  - intros Hi Hf. by rewrite (IH i).
Qed.

(** Replacing an entry that has not the name [m] by another that has not
    leaves the first entry of that name where it is. *)
Lemma first_match_insert m l i0 v0 v' i p :
  l !! i0 = Some v0 ->
  has_name m v0 = false -> nullish v0 = false ->
  has_name m v' = false -> nullish v' = false ->
  first_match m (<[i0 := v']> l) i p <-> first_match m l i p.
Proof.
  intros H0 Hn0 Hu0 Hn' Hu'. pose proof (lookup_lt_Some _ _ _ H0) as Hlt0.
  split; intros (Hi & Hn & Hb).
  - assert (i <> i0) as Hne.
    { intros ->. rewrite list_lookup_insert_eq in Hi by done. congruence. }
    rewrite list_lookup_insert_ne in Hi by done.
    split; [done|]. split; [done|]. intros j v Hj Hv.
    destruct (decide (j = i0)) as [->|Hj0].
    + rewrite H0 in Hv. injection Hv as <-. done.
    + apply (Hb j); [done|]. by rewrite list_lookup_insert_ne.
  - assert (i <> i0) as Hne by (intros ->; congruence).
    split; [by rewrite list_lookup_insert_ne|]. split; [done|]. intros j v Hj Hv.
    destruct (decide (j = i0)) as [->|Hj0].
    + rewrite list_lookup_insert_eq in Hv by done. injection Hv as <-. done.
    + rewrite list_lookup_insert_ne in Hv by done. by apply (Hb j).
Qed.

Lemma first_match_app m l d i p :
  has_name m d = false -> nullish d = false ->
  first_match m (l ++ [d]) i p <-> first_match m l i p.
Proof.
  intros Hn Hu. split; intros (Hi & Hm & Hb).
  - assert (i < length l) as Hlt.
    { destruct (decide (i < length l)); [done|].
      apply lookup_lt_Some in Hi as Hlen. rewrite length_app in Hlen. simpl in Hlen.
      assert (i = length l) as -> by lia.
      rewrite list_lookup_middle in Hi by done. injection Hi as ->. congruence. }
    rewrite lookup_app_l in Hi by done.
    split; [done|]. split; [done|]. intros j v Hj Hv. apply (Hb j); [done|].
    by apply lookup_app_l_Some.
  - pose proof (lookup_lt_Some _ _ _ Hi) as Hlt.
    split; [by apply lookup_app_l_Some|]. split; [done|]. intros j v Hj Hv.
    rewrite lookup_app_l in Hv by lia. by apply (Hb j).
Qed.

Section Step.

Variable createSchema : string -> option JsVal.

Lemma merged_param_name name required p :
  NoDup p.*1 -> has_name name (JObj p) = true ->
  forall n, has_name n (JObj (merged_param createSchema name required p))
            = has_name n (JObj p).
Proof.
  intros Hnd Hname n. apply has_name_same_name.
  assert (Hhas : has_prop p "name" = true).
  { apply has_name_is in Hname as (q & [= <-] & Hq).
    apply get_prop_has_prop. by rewrite Hq. }
  unfold merged_param. by destruct (merged_entry p
    (match get_prop p "schema" with JStr s => createSchema s | _ => None end)
    name required Hnd Hhas) as (_ & -> & _).
Qed.

Lemma merged_param_NoDup name required p :
  NoDup p.*1 -> NoDup (merged_param createSchema name required p).*1.
Proof.
  intros Hnd. unfold merged_param.
  apply keys_assign_NoDup. by apply keys_schema_resolved_NoDup.
Qed.

(** What the merge leaves in the entry, field by field. *)
Lemma merged_param_fields name required existing :
  NoDup existing.*1 ->
  (forall s, get_prop existing "schema" = JStr s -> createSchema s <> None) ->
  let default := paramDocumentationFromSls name required in
  let merged := merged_param createSchema name required existing in
  (forall s, get_prop existing "schema" = JStr s ->
             Some (get_prop merged "schema") = createSchema s)
  /\ (forall k, has_prop existing k = true ->
                (k = "schema" -> forall s, get_prop existing "schema" <> JStr s) ->
                get_prop merged k = get_prop existing k)
  /\ (forall k, has_prop existing k = false -> get_prop merged k = get_prop default k)
  /\ (forall k, has_prop merged k = has_prop existing k || has_prop default k).
Proof.
  intros Hnd Hres. cbv zeta. unfold merged_param.
  set (default := paramDocumentationFromSls name required).
  set (schema := match get_prop existing "schema" with
                 | JStr s => createSchema s | _ => None end).
  set (existing1 := schema_resolved existing schema).
  pose proof (default_keys_NoDup name required) as Hd. fold default in Hd.
  assert (H1 : NoDup existing1.*1) by by apply keys_schema_resolved_NoDup.
  repeat split.
  - intros s Hs.
    destruct (merge_fields existing1 default "schema" H1 Hd) as [-> _].
    subst existing1. rewrite has_prop_schema_resolved.
    destruct (has_prop existing "schema") eqn:Hh;
      [|by rewrite (has_prop_false_get _ _ Hh) in Hs].
    subst schema. unfold schema_resolved. rewrite Hs.
    specialize (Hres _ Hs). destruct (createSchema s); [|done].
    by rewrite get_prop_set_eq.
  - intros k Hk Hschema.
    destruct (merge_fields existing1 default k H1 Hd) as [-> _].
    subst existing1. rewrite has_prop_schema_resolved, Hk.
    unfold schema_resolved.
    destruct (get_prop existing "schema") as [[]| |] eqn:Hs; try done.
    destruct schema; [|done].
    apply get_prop_set_ne. intros <-. by apply (Hschema eq_refl s).
  - intros k Hk.
    destruct (merge_fields existing1 default k H1 Hd) as [-> _].
    subst existing1. by rewrite has_prop_schema_resolved, Hk.
  - intros k.
    destruct (merge_fields existing1 default k H1 Hd) as [_ ->].
    subst existing1. by rewrite has_prop_schema_resolved.
Qed.

Lemma param_step_good name required l l' :
  param_step createSchema name required l l' ->
  Forall good_entry l -> Forall good_entry l'.
Proof.
  intros [[_ ->]|(i & p & (Hi & _ & _) & ->)] Hgood.
  - apply Forall_app. split; [done|]. constructor; [|done].
    split; [done|]. apply default_keys_NoDup.
  - apply Forall_insert; [done|]. split; [done|].
    apply merged_param_NoDup.
    by destruct (proj1 (Forall_lookup _ _) Hgood i _ Hi) as [_ Hnd].
Qed.

Lemma param_step_length name required l l' :
  param_step createSchema name required l l' ->
  length l' = length l + (if existsb (has_name name) l then 0 else 1).
Proof.
  intros [[Hno ->]|(i & p & Hfirst & ->)].
  - rewrite (no_match_none _ _ Hno), length_app. done.
  - rewrite (first_match_some _ _ _ _ Hfirst), length_insert. lia.
Qed.

Lemma param_step_names name required l l' :
  param_step createSchema name required l l' ->
  Forall good_entry l ->
  forall i v, l !! i = Some v ->
              exists v', l' !! i = Some v' /\ forall n, has_name n v' = has_name n v.
Proof.
  intros [[_ ->]|(i0 & p & (Hi0 & Hname & _) & ->)] Hgood i v Hi.
  - exists v. split; [by apply lookup_app_l_Some | done].
  - destruct (decide (i = i0)) as [->|Hne].
    + rewrite Hi0 in Hi. injection Hi as <-. eexists.
      split; [apply list_lookup_insert_eq; by eapply lookup_lt_Some|].
      apply merged_param_name; [|done].
      by destruct (proj1 (Forall_lookup _ _) Hgood i0 _ Hi0) as [_ Hnd].
    + exists v. by rewrite list_lookup_insert_ne.
Qed.

Lemma param_step_other name required l l' m :
  param_step createSchema name required l l' ->
  Forall good_entry l -> m <> name ->
  (forall i p, first_match m l' i p <-> first_match m l i p)
  /\ existsb (has_name m) l' = existsb (has_name m) l.
Proof.
  intros [[_ ->]|(i0 & p0 & (Hi0 & Hname & _) & ->)] Hgood Hne.
  - split.
    + intros i p. apply first_match_app; [by apply has_name_default | done].
    + rewrite existsb_app. cbn [existsb]. rewrite has_name_default by done.
      by rewrite !orb_false_r.
  - destruct (proj1 (Forall_lookup _ _) Hgood i0 _ Hi0) as [_ Hnd]. simpl in Hnd.
    pose proof (has_name_other _ _ _ Hname Hne) as Hm.
    split.
    + intros i p. apply (first_match_insert m l i0 (JObj p0)); try done.
      by rewrite merged_param_name.
    + apply (existsb_insert _ _ _ (JObj p0)); [done|]. by rewrite merged_param_name.
Qed.

Lemma param_step_first name required l l' :
  param_step createSchema name required l l' ->
  (Forall (fun v => has_name name v = false) l ->
   l' !! length l = Some (JObj (paramDocumentationFromSls name required)))
  /\ (forall i p, first_match name l i p ->
                  l' !! i = Some (JObj (merged_param createSchema name required p))).
Proof.
  intros [[Hno ->]|(i0 & p0 & Hfirst & ->)]; split.
  - intros _. by apply list_lookup_middle.
  - intros i p (Hi & Hn & _).
    destruct (proj1 (Forall_lookup _ _) Hno i _ Hi) as [Hf _]. congruence.
  - intros Hno. destruct Hfirst as (Hi & Hn & _).
    pose proof (proj1 (Forall_lookup _ _) Hno i0 _ Hi) as Hf. simpl in Hf, Hn. congruence.
  - intros i p Hfirst'.
    destruct (first_match_unique _ _ _ _ _ _ Hfirst Hfirst') as [<- <-].
    apply list_lookup_insert_eq. destruct Hfirst as (Hi & _). by eapply lookup_lt_Some.
Qed.

Lemma param_step_unchanged name required l l' i v :
  param_step createSchema name required l l' ->
  l !! i = Some v ->
  (forall p, ~ first_match name l i p) ->
  l' !! i = Some v.
Proof.
  intros [[_ ->]|(i0 & p0 & Hfirst & ->)] Hi Hnot.
  - by apply lookup_app_l_Some.
  - rewrite list_lookup_insert_ne; [done|]. intros <-.
    destruct Hfirst as (Hi0 & Hrest). rewrite Hi in Hi0. injection Hi0 as ->.
    by apply (Hnot p0).
Qed.

(** One turn of the loop runs when the generator has the schema the entry
    of the parameter names, if it names one. *)
Lemma setDefaultParam_runs key e o l name required st :
  documentation e = DocObj o ->
  documented_params o key = Some l ->
  Forall good_entry l ->
  (forall i p s, first_match name l i p -> get_prop p "schema" = JStr s ->
                 createSchema s <> None) ->
  exists l' st',
    setDefaultParam createSchema key e (name, required) st
    = Ok (set_documentation e (DocObj (set_prop o key (JArr l'))), st')
    /\ param_step createSchema name required l l'.
Proof.
  intros Ho Hl Hgood Hres.
  destruct (find_param_total name l 0 (good_entries_searchable _ Hgood)) as [found Hfind].
  pose proof (find_param_inv _ _ _ _ Hfind) as Hinv.
  destruct found as [[i p]|].
  - destruct Hinv as (j & -> & Hfirst). simpl in Hfirst.
    pose proof Hfirst as (Hj & Hname & Hbefore).
    pose proof (setDefaultParam_existing createSchema key e o l j p name required st
                  Ho Hl Hj Hname Hbefore (fun s => Hres j p s Hfirst)) as Hrun.
    cbv zeta in Hrun. eexists _, _. split; [exact Hrun|].
    right. by exists j, p.
  - rewrite (setDefaultParam_new createSchema key e o l name required st Ho Hl Hinv).
    eexists _, _. split; [reflexivity|]. by left.
Qed.

End Step.

Section Loop.

Variable createSchema : string -> option JsVal.
Variable P : JsVal -> Prop.

Hypothesis P_not_a_string : forall v, not_a_string v -> P v.
Hypothesis P_schema : forall s schema, createSchema s = Some schema -> P schema.

Lemma default_complete name required :
  complete P (paramDocumentationFromSls name required).
Proof.
  split; [apply default_keys_NoDup|]. repeat split. apply P_not_a_string. by intros ?.
Qed.

Lemma merged_param_complete name required p :
  NoDup p.*1 -> has_name name (JObj p) = true ->
  (forall s, get_prop p "schema" = JStr s -> createSchema s <> None) ->
  complete P (merged_param createSchema name required p).
Proof.
  intros Hnd Hname Hres.
  assert (Hhas : has_prop p "name" = true).
  { apply has_name_is in Hname as (q & [= <-] & Hq).
    apply get_prop_has_prop. by rewrite Hq. }
  unfold merged_param.
  set (schema := match get_prop p "schema" with
                 | JStr s => createSchema s | _ => None end).
  destruct (merged_entry p schema name required Hnd Hhas)
    as (Hmnd & Hmname & Hm1 & Hm2 & Hm3 & Hmschema).
  split; [done|]. repeat split; try done. rewrite Hmschema.
  destruct (has_prop p "schema"); [|apply P_not_a_string; by intros ?].
  subst schema. unfold schema_resolved.
  destruct (get_prop p "schema") as [[| | | |s]| |] eqn:Hs;
    try (rewrite Hs; apply P_not_a_string; by intros ?).
  destruct (createSchema s) as [sch|] eqn:Hc; [|by destruct (Hres s)].
  rewrite get_prop_set_eq. by apply (P_schema s).
Qed.

Lemma param_step_settled name required l l' :
  param_step createSchema name required l l' ->
  Forall good_entry l ->
  (forall i p s, first_match name l i p -> get_prop p "schema" = JStr s ->
                 createSchema s <> None) ->
  settled P name l'.
Proof.
  intros [[Hno ->]|(i & p & Hfirst & ->)] Hgood Hres.
  - exists (length l), (paramDocumentationFromSls name required).
    split; [|apply default_complete]. split; [by apply list_lookup_middle|].
    split; [simpl; apply String.eqb_refl|].
    intros j v Hj Hv. rewrite lookup_app_l in Hv by done.
    by apply (proj1 (Forall_lookup _ _) Hno j).
  - pose proof Hfirst as (Hi & Hname & Hbefore).
    destruct (proj1 (Forall_lookup _ _) Hgood i _ Hi) as [_ Hnd]. simpl in Hnd.
    exists i, (merged_param createSchema name required p). split.
    + split; [apply list_lookup_insert_eq; by eapply lookup_lt_Some|].
      split; [by rewrite merged_param_name|].
      intros j v Hj Hv. rewrite list_lookup_insert_ne in Hv by lia. by apply (Hbefore j).
    + apply merged_param_complete; [done..|]. intros s. by apply (Hres i p s).
Qed.

Lemma param_step_keeps_settled name required l l' m :
  param_step createSchema name required l l' ->
  Forall good_entry l ->
  (forall i p s, first_match name l i p -> get_prop p "schema" = JStr s ->
                 createSchema s <> None) ->
  settled P m l -> settled P m l'.
Proof.
  intros Hstep Hgood Hres (i & p & Hfirst & Hp).
  destruct (decide (m = name)) as [->|Hne]; [by eapply param_step_settled|].
  exists i, p. split; [|done].
  by apply (param_step_other createSchema name required l l' m Hstep Hgood Hne).
Qed.

(** The loop, for parameters of distinct names, as [Object.entries] gives
    them, when the generator has every schema the first entry of a parameter
    names. *)
Lemma setDefaultParamsDocumentation_loop key params e o l st :
  documentation e = DocObj o ->
  documented_params o key = Some l ->
  Forall good_entry l ->
  NoDup params.*1 ->
  (forall n r i p s, In (n, r) params -> first_match n l i p ->
                     get_prop p "schema" = JStr s -> createSchema s <> None) ->
  exists o' l' st',
    setDefaultParamsDocumentation createSchema params e key st
    = Ok (set_documentation e (DocObj o'), st')
    /\ documented_params o' key = Some l'
    /\ (forall k, k <> key -> get_prop o' k = get_prop o k)
    /\ Forall good_entry l'
    /\ (forall n r, In (n, r) params -> settled P n l')
    /\ (forall m, settled P m l -> settled P m l')
    /\ (forall i v, l !! i = Some v ->
                    exists v', l' !! i = Some v' /\ forall n, has_name n v' = has_name n v)
    /\ (forall n r, In (n, r) params ->
          (Forall (fun v => has_name n v = false) l ->
           exists i, length l <= i
                     /\ l' !! i = Some (JObj (paramDocumentationFromSls n r)))
          /\ (forall i p, first_match n l i p ->
                          l' !! i = Some (JObj (merged_param createSchema n r p))))
    /\ (forall i v, l !! i = Some v ->
                    (forall n r p, In (n, r) params -> ~ first_match n l i p) ->
                    l' !! i = Some v)
    /\ length l'
       = length l
         + length (List.filter (fun param => negb (existsb (has_name (fst param)) l))
                     params).
Proof.
  unfold setDefaultParamsDocumentation. revert e o l st.
  induction params as [|[name required] params IH]; intros e o l st Ho Hl Hgood Hnd Hres.
  - exists o, l, st. simpl. rewrite <- Ho, set_documentation_same.
    repeat split; try done; try lia. intros i v Hi. by exists v.
  - rewrite fmap_cons in Hnd. apply NoDup_cons in Hnd as [Hfresh Hnd]. cbn [fst] in Hfresh.
    assert (Hother : forall n r, In (n, r) params -> n <> name).
    { intros n r Hin ->. apply Hfresh. apply list_elem_of_fmap.
      exists (name, r). split; [done|]. by apply list_elem_of_In. }
    assert (Hres0 : forall i p s, first_match name l i p -> get_prop p "schema" = JStr s ->
                                  createSchema s <> None).
    { intros i p s. apply (Hres name required). by left. }
    destruct (setDefaultParam_runs createSchema key e o l name required st Ho Hl Hgood Hres0)
      as (l1 & st1 & Hrun & Hstep).
    pose proof (param_step_good _ _ _ _ _ Hstep Hgood) as Hgood1.
    pose proof (param_step_length _ _ _ _ _ Hstep) as Hlen1.
    pose proof (param_step_names _ _ _ _ _ Hstep Hgood) as Hnames1.
    pose proof (param_step_first _ _ _ _ _ Hstep) as [Hnew1 Hmerged1].
    assert (Hres1 : forall n r i p s, In (n, r) params -> first_match n l1 i p ->
                                      get_prop p "schema" = JStr s -> createSchema s <> None).
    { intros n r i p s Hin Hfirst. apply (Hres n r i p s); [by right|].
      by apply (param_step_other _ _ _ _ _ n Hstep Hgood (Hother n r Hin)). }
    destruct (IH (set_documentation e (DocObj (set_prop o key (JArr l1))))
                (set_prop o key (JArr l1)) l1 st1 eq_refl
                (documented_params_set _ _ _) Hgood1 Hnd Hres1)
      as (o' & l' & st' & Hrest & Hl' & Hkeys' & Hgood' & Hset' & Hkeep' & Hnames'
          & Hparams' & Hsame' & Hlen').
    assert (Hstay : forall i p, l1 !! i = Some (JObj p) -> has_name name (JObj p) = true ->
                                l' !! i = Some (JObj p)).
    { intros i p Hi Hname. apply Hsame'; [done|]. intros n r q Hin (Hq & Hn & _).
      rewrite Hi in Hq. injection Hq as <-.
      rewrite (has_name_other _ _ _ Hname (Hother n r Hin)) in Hn. done. }
    exists o', l', st'. cbn [forEach_acc]. unfold bind. rewrite Hrun, Hrest.
    split; [done|]. split; [done|].
    split; [intros k Hk; by rewrite Hkeys', get_prop_set_ne|].
    split; [done|].
    split.
    { intros n r [[= <- <-]|Hin]; [|by apply (Hset' n r)].
      by apply Hkeep', (param_step_settled _ _ _ _ Hstep). }
    split.
    { intros m Hm. by apply Hkeep', (param_step_keeps_settled _ _ _ _ _ Hstep). }
    split.
    { intros i v Hi. destruct (Hnames1 i v Hi) as (v1 & Hv1 & Hn1).
      destruct (Hnames' i v1 Hv1) as (v' & Hv' & Hn').
      exists v'. split; [done|]. intros n. by rewrite Hn', Hn1. }
    split.
    { intros n r [[= <- <-]|Hin].
      - split.
        + intros Hno. exists (length l). split; [done|].
          apply Hstay; [by apply Hnew1|]. simpl. apply String.eqb_refl.
        + intros i p Hfirst. apply Hstay; [by apply Hmerged1|].
          pose proof Hfirst as (Hi & Hname & _).
          rewrite merged_param_name; [done| |done].
          by destruct (proj1 (Forall_lookup _ _) Hgood i _ Hi) as [_ Hp].
      - destruct (param_step_other _ _ _ _ _ n Hstep Hgood (Hother n r Hin))
          as [Hiff Hex].
        destruct (Hparams' n r Hin) as [Hnew Hmerged]. split.
        + intros Hno.
          destruct Hnew as (i & Hi & Hdefault).
          * apply Forall_forall. intros v Hv.
            destruct (has_name n v) eqn:E; [|done].
            assert (Hsome : existsb (has_name n) l1 = true).
            { apply existsb_exists. exists v. split; [by apply list_elem_of_In | done]. }
            rewrite Hex in Hsome. apply existsb_exists in Hsome as (w & Hw & Hnw).
            apply list_elem_of_In in Hw.
            rewrite Forall_forall in Hno. rewrite (Hno w Hw) in Hnw. done.
          * exists i. split; [lia | done].
        + intros i p Hfirst. apply Hmerged. by apply Hiff. }
    split.
    { intros i v Hi Hnot. apply Hsame'.
      - apply (param_step_unchanged _ _ _ _ _ _ _ Hstep Hi).
        intros p. apply (Hnot name required). by left.
      - intros n r p Hin Hfirst. apply (Hnot n r p); [by right|].
        by apply (param_step_other _ _ _ _ _ n Hstep Hgood (Hother n r Hin)). }
    rewrite Hlen', Hlen1. cbn [List.filter fst].
    assert (Hfilter :
      List.filter (fun param => negb (existsb (has_name (fst param)) l1)) params
      = List.filter (fun param => negb (existsb (has_name (fst param)) l)) params).
    { apply filter_ext_in. intros [n r] Hin. cbn [fst].
      by destruct (param_step_other _ _ _ _ _ n Hstep Hgood (Hother n r Hin)) as [_ ->]. }
    rewrite Hfilter. destruct (existsb (has_name name) l); simpl; lia.
Qed.

End Loop.

Section Normalizer.

Variable createSchema : string -> option JsVal.

(** An entry that is there and complete, with a schema that is no string, is
    merged into itself: the event and the plugin stay as they are. *)
Lemma setDefaultParam_settled key e o l name required st :
  documentation e = DocObj o ->
  documented_params o key = Some l ->
  settled not_a_string name l ->
  setDefaultParam createSchema key e (name, required) st = Ok (e, st).
Proof.
  intros Ho Hl (i & p & (Hi & Hname & Hbefore) & Hp).
  pose proof Hp as (Hnd & _ & _ & _ & Hs).
  assert (Hne : l <> []) by (intros ->; done).
  pose proof (documented_params_nonempty _ _ _ Hl Hne) as Hget.
  rewrite (setDefaultParam_existing createSchema key e o l i p name required st
             Ho Hl Hi Hname Hbefore).
  - assert (Hp1 : forall schema, schema_resolved p schema = p).
    { intros schema. unfold schema_resolved.
      destruct (get_prop p "schema") as [[| | | |s]| |] eqn:E; try done.
      by destruct (Hs s). }
    rewrite Hp1, (merge_complete _ _ _ _ Hp), (list_insert_id _ _ _ Hi).
    rewrite <- Hget, set_prop_same, <- Ho, set_documentation_same
      by (apply get_prop_has_prop; by rewrite Hget).
    f_equal. f_equal. destruct (get_prop p "schema") as [[| | | |s]| |] eqn:E; try done.
    by destruct (Hs s).
  - intros s Hstr. by destruct (Hs s).
Qed.

Lemma setDefaultParamsDocumentation_settled key params e o l st :
  documentation e = DocObj o ->
  documented_params o key = Some l ->
  (forall n r, In (n, r) params -> settled not_a_string n l) ->
  setDefaultParamsDocumentation createSchema params e key st = Ok (e, st).
Proof.
  intros Ho Hl. unfold setDefaultParamsDocumentation.
  induction params as [|[name required] params IH]; intros Hall; [done|].
  cbn [forEach_acc]. unfold bind.
  rewrite (setDefaultParam_settled key e o l name required st Ho Hl);
    [|by apply (Hall name required); left].
  apply IH. intros n r Hin. apply (Hall n r). by right.
Qed.

(** C4.  [setDefaultParamsDocumentation] over the parameters of an event,
    which have distinct names, and the list [documentation[key] || []], which
    holds neither [undefined] nor [null] and only objects with distinct keys;
    the generator has the schema that the first entry of a parameter names,
    when it names one.  The loop returns, with [documentation[key]] a list in
    which, for every parameter, [name, required]: if no entry of the list had
    the name, the default [{name, required, schema: {type: 'string'}}] is
    among the entries added at the end; if one had, the first such entry is
    replaced, at its place, by an object in which a [schema] that was a
    string is the schema the generator gives for it, every other field the
    entry had has the value it had, and the fields the entry had not are
    those of the default.  Every entry that is not the first of the name of a
    parameter is where it was, as it was; one entry has been added for each
    parameter without an entry, and no other; no other key of the
    documentation has changed. *)
Theorem setDefaultParamsDocumentation_entries key params e o l st :
  documentation e = DocObj o ->
  documented_params o key = Some l ->
  Forall good_entry l ->
  NoDup params.*1 ->
  (forall name required i existing s,
      In (name, required) params -> first_match name l i existing ->
      get_prop existing "schema" = JStr s -> createSchema s <> None) ->
  exists o' l' st',
    setDefaultParamsDocumentation createSchema params e key st
    = Ok (set_documentation e (DocObj o'), st')
    /\ documented_params o' key = Some l'
    /\ (forall k, k <> key -> get_prop o' k = get_prop o k)
    /\ (forall name required,
          In (name, required) params ->
          let default :=
            [("name", JStr name); ("required", required);
             ("schema", JObj [("type", JStr "string")])] in
          (Forall (fun v => has_name name v = false) l ->
           exists i, length l <= i /\ l' !! i = Some (JObj default))
          /\ (forall i existing,
                first_match name l i existing ->
                exists merged,
                  l' !! i = Some (JObj merged)
                  /\ (forall s, get_prop existing "schema" = JStr s ->
                                Some (get_prop merged "schema") = createSchema s)
                  /\ (forall k, has_prop existing k = true ->
                                (k = "schema" ->
                                 forall s, get_prop existing "schema" <> JStr s) ->
                                get_prop merged k = get_prop existing k)
                  /\ (forall k, has_prop existing k = false ->
                                get_prop merged k = get_prop default k)
                  /\ (forall k, has_prop merged k
                                = has_prop existing k || has_prop default k)))
    /\ (forall i v,
          l !! i = Some v ->
          (forall name required existing,
              In (name, required) params -> ~ first_match name l i existing) ->
          l' !! i = Some v)
    /\ length l'
       = length l
         + length (List.filter (fun param => negb (existsb (has_name (fst param)) l))
                     params).
Proof.
  intros Ho Hl Hgood Hnd Hres.
  destruct (setDefaultParamsDocumentation_loop createSchema (fun _ => True)
              (fun _ _ => I) (fun _ _ _ => I) key params e o l st Ho Hl Hgood Hnd Hres)
    as (o' & l' & st' & Hrun & Hl' & Hkeys & _ & _ & _ & _ & Hparams & Hsame & Hlen).
  exists o', l', st'.
  split; [done|]. split; [done|]. split; [done|]. split; [|by split].
  intros name required Hin. cbv zeta.
  destruct (Hparams name required Hin) as [Hnew Hmerged]. split; [exact Hnew|].
  intros i existing Hfirst.
  exists (merged_param createSchema name required existing).
  split; [by apply Hmerged|].
  pose proof Hfirst as (Hi & _).
  destruct (proj1 (Forall_lookup _ _) Hgood i _ Hi) as [_ Hkeysnd]. simpl in Hkeysnd.
  apply (merged_param_fields createSchema name required existing Hkeysnd).
  intros s. by apply (Hres name required i existing s).
Qed.

(** X4.  When the parameters have distinct names, the generator has the
    schema that the first entry of a parameter names, when it names one, and
    the list [documentation[key] || []] holds neither [undefined] nor [null]
    and only objects with distinct keys, [setDefaultParamsDocumentation]
    returns, and afterwards every parameter of the set has an entry of its
    name in the list, with a [required] and a [schema] field; the entries
    that were in the list are at their places, each under the name it had,
    and at most one entry for each parameter has been added at the end. *)
Theorem setDefaultParamsDocumentation_documents_all key params e o l st :
  documentation e = DocObj o ->
  documented_params o key = Some l ->
  Forall good_entry l ->
  NoDup params.*1 ->
  (forall name required i existing s,
      In (name, required) params -> first_match name l i existing ->
      get_prop existing "schema" = JStr s -> createSchema s <> None) ->
  exists o' l' st',
    setDefaultParamsDocumentation createSchema params e key st
    = Ok (set_documentation e (DocObj o'), st')
    /\ documented_params o' key = Some l'
    /\ (forall name required, In (name, required) params ->
          exists i p,
            l' !! i = Some (JObj p) /\ get_prop p "name" = JStr name
            /\ has_prop p "required" = true /\ has_prop p "schema" = true)
    /\ length l <= length l' <= length l + length params
    /\ (forall i v, l !! i = Some v ->
                    exists v', l' !! i = Some v' /\ forall n, has_name n v' = has_name n v).
Proof.
  intros Ho Hl Hgood Hnd Hres.
  destruct (setDefaultParamsDocumentation_loop createSchema (fun _ => True)
              (fun _ _ => I) (fun _ _ _ => I) key params e o l st Ho Hl Hgood Hnd Hres)
    as (o' & l' & st' & Hrun & Hl' & _ & _ & Hset & _ & Hnames & _ & _ & Hlen).
  exists o', l', st'. split; [done|]. split; [done|]. split; [|split; [|done]].
  - intros name required Hin.
    destruct (Hset name required Hin) as (i & p & (Hi & Hname & _) & (_ & _ & Hr & Hs & _)).
    apply has_name_is in Hname as (q & [= <-] & Hq). by exists i, p.
  - rewrite Hlen.
    pose proof (filter_length_le
                  (fun param => negb (existsb (has_name (fst param)) l)) params).
    lia.
Qed.

(** X5.  A second pass of [setDefaultParamsDocumentation] over the same
    parameters changes nothing and calls the generator for nothing: under the
    conditions above, and with a generator whose schemas are no strings, the
    event the first pass returns is a fixed point, for every state of the
    plugin. *)
Theorem setDefaultParamsDocumentation_twice key params e o l st :
  documentation e = DocObj o ->
  documented_params o key = Some l ->
  Forall good_entry l ->
  NoDup params.*1 ->
  (forall name required i existing s,
      In (name, required) params -> first_match name l i existing ->
      get_prop existing "schema" = JStr s -> createSchema s <> None) ->
  (forall s schema, createSchema s = Some schema -> not_a_string schema) ->
  exists e1 st1,
    setDefaultParamsDocumentation createSchema params e key st = Ok (e1, st1)
    /\ forall st2,
         setDefaultParamsDocumentation createSchema params e1 key st2 = Ok (e1, st2).
Proof.
  intros Ho Hl Hgood Hnd Hres Hschema.
  destruct (setDefaultParamsDocumentation_loop createSchema not_a_string
              (fun _ H => H) Hschema key params e o l st Ho Hl Hgood Hnd Hres)
    as (o' & l' & st' & Hrun & Hl' & _ & _ & Hset & _).
  eexists _, _. split; [exact Hrun|]. intros st2.
  by apply (setDefaultParamsDocumentation_settled key params _ o' l').
Qed.

End Normalizer.

Section NormalizerFrame.

Variable createSchema : string -> option JsVal.

Lemma generateSchema_frame modelName st schema st' :
  generateSchema createSchema modelName st = Ok (schema, st') ->
  models st' = models st /\ apiNamespace st' = apiNamespace st
  /\ functionsMissingDocumentation st' = functionsMissingDocumentation st.
Proof.
  unfold generateSchema. destruct (createSchema modelName); [|done].
  intros [= _ <-]. unfold ensure_generator. by destruct (schemaGenerator st).
Qed.

Lemma setDefaultParam_frame key e param st e' st' :
  setDefaultParam createSchema key e param st = Ok (e', st') ->
  e' = set_documentation e (documentation e')
  /\ (forall k, k <> key ->
        documentation_prop (documentation e') k = documentation_prop (documentation e) k)
  /\ models st' = models st /\ apiNamespace st' = apiNamespace st
  /\ functionsMissingDocumentation st' = functionsMissingDocumentation st.
Proof.
  unfold setDefaultParam. destruct param as [name required].
  destruct (documentation e) as [| |doc] eqn:Hdoc; try done.
  rewrite get_prop_set_eq.
  destruct (if truthy _ then _ else _) as [| l |]; try done.
  intros (found & st1 & H1 & H2)%bind_Ok.
  assert (st1 = st) as ->.
  { unfold lift in H1. destruct (find_param name l 0); congruence. }
  assert (Hother : forall v k, k <> key ->
            get_prop (set_prop (set_prop doc key (JArr l)) key v) k = get_prop doc k).
  { intros v k Hk. by rewrite !get_prop_set_ne. }
  destruct found as [[i existing]|].
  - apply bind_Ok in H2 as (existing' & st2 & H2 & [= <- <-]).
    split; [done|]. split; [intros k Hk; by apply Hother|].
    destruct (get_prop existing "schema") as [[| | | |s]| |];
      try (injection H2 as _ <-; done).
    apply bind_Ok in H2 as (schema & st3 & H2 & [= _ <-]).
    by apply generateSchema_frame in H2.
  - injection H2 as <- <-. split; [done|]. split; [|done].
    intros k Hk. by apply Hother.
Qed.

(** X6.  [setDefaultParamsDocumentation] touches nothing but
    [documentation[key]]: the event it returns has the method, the private
    flag and the parameters of the event it was given, every other key of the
    documentation reads as before, and the plugin has the model registry, the
    API namespace and the list of undocumented functions it had. *)
Theorem setDefaultParamsDocumentation_frame key params e st e' st' :
  setDefaultParamsDocumentation createSchema params e key st = Ok (e', st') ->
  e' = set_documentation e (documentation e')
  /\ (forall k, k <> key ->
        documentation_prop (documentation e') k = documentation_prop (documentation e) k)
  /\ models st' = models st /\ apiNamespace st' = apiNamespace st
  /\ functionsMissingDocumentation st' = functionsMissingDocumentation st.
Proof.
  unfold setDefaultParamsDocumentation. revert e st.
  induction params as [|param params IH]; intros e st; cbn [forEach_acc].
  - intros [= <- <-]. by rewrite set_documentation_same.
  - intros (e1 & st1 & H1 & H2)%bind_Ok.
    apply setDefaultParam_frame in H1 as (He1 & Hk1 & Hm1 & Ha1 & Hf1).
    apply IH in H2 as (He' & Hk' & Hm' & Ha' & Hf').
    split; [rewrite He', He1; reflexivity|].
    split; [intros k Hk; by rewrite Hk', Hk1|]. repeat split; congruence.
Qed.

Lemma find_param_throw name l i i0 v :
  l !! i = Some v -> nullish v = true ->
  (forall j w, j < i -> l !! j = Some w -> has_name name w = false /\ nullish w = false) ->
  find_param name l i0 = Throw TypeError.
Proof.
  revert i i0. induction l as [|w l IH]; intros i i0 Hi Hv Hbefore; [done|].
  destruct i as [|i]; simpl in Hi.
  - injection Hi as ->. by destruct v as [[]| |].
  - destruct (Hbefore 0 w) as [Hn Hw]; [lia | done |].
    assert (Hrec : find_param name l (S i0) = Throw TypeError).
    { apply (IH i); [done..|]. intros j w' Hj Hw'. apply (Hbefore (S j)); [lia | done]. }
    destruct w as [[]| |q]; simpl in *; try done. by rewrite Hn.
Qed.

(** X7.  With a parameter to document, [setDefaultParamsDocumentation] throws
    a [TypeError] when [documentation] is no object, when
    [documentation[key]] is truthy and no array (a mapping, say), and when the
    search for the first parameter meets [undefined] or [null] in the list
    before an entry of its name. *)
Theorem setDefaultParamsDocumentation_type_error key name required params e st :
  let outcome :=
    setDefaultParamsDocumentation createSchema ((name, required) :: params) e key st in
  ((forall o, documentation e <> DocObj o) -> outcome = Throw TypeError)
  /\ (forall o, documentation e = DocObj o -> documented_params o key = None ->
                outcome = Throw TypeError)
  /\ (forall o l i v,
        documentation e = DocObj o -> documented_params o key = Some l ->
        l !! i = Some v -> nullish v = true ->
        (forall j w, j < i -> l !! j = Some w ->
                     has_name name w = false /\ nullish w = false) ->
        outcome = Throw TypeError).
Proof.
  intros outcome. subst outcome. unfold setDefaultParamsDocumentation. cbn [forEach_acc].
  unfold bind at 1. unfold setDefaultParam. repeat split.
  - intros Hno. destruct (documentation e) as [| |o]; try done. by destruct (Hno o).
  - intros o Ho Hnone. rewrite Ho, get_prop_set_eq.
    unfold documented_params in Hnone.
    destruct (truthy (get_prop o key)); [|done].
    by destruct (get_prop o key) as [| |].
  - intros o l i v Ho Hl Hi Hv Hbefore.
    rewrite Ho, get_prop_set_eq, (documented_params_current _ _ _ Hl).
    unfold bind, lift. by rewrite (find_param_throw name l i 0 v Hi Hv Hbefore).
Qed.

End NormalizerFrame.

(** ** The scan as a whole *)

Lemma grows_intro st st' added calls missing :
  registry st' = registry st ++ added ->
  createSchemaCalls st' = createSchemaCalls st ++ calls ->
  functionsMissingDocumentation st' = functionsMissingDocumentation st ++ missing ->
  apiNamespace st' = apiNamespace st ->
  (schemaGenerator st = true -> schemaGenerator st' = true) ->
  generatorsCreated st'
  = generatorsCreated st
    + (if schemaGenerator st then 0 else if schemaGenerator st' then 1 else 0) ->
  grows st st'.
Proof. intros. unfold grows. eauto 10. Qed.

Lemma grows_refl st : grows st st.
Proof.
  apply (grows_intro _ _ [] [] []); rewrite ?app_nil_r; try done.
  destruct (schemaGenerator st); lia.
Qed.

Lemma grows_trans st1 st2 st3 : grows st1 st2 -> grows st2 st3 -> grows st1 st3.
Proof.
  intros ([a1 Ha1] & [c1 Hc1] & [m1 Hm1] & Hn1 & Hg1 & Hk1)
         ([a2 Ha2] & [c2 Hc2] & [m2 Hm2] & Hn2 & Hg2 & Hk2).
  repeat split.
  - exists (a1 ++ a2). by rewrite Ha2, Ha1, app_assoc.
  - exists (c1 ++ c2). by rewrite Hc2, Hc1, app_assoc.
  - exists (m1 ++ m2). by rewrite Hm2, Hm1, app_assoc.
  - congruence.
  - auto.
  - rewrite Hk2, Hk1.
    destruct (schemaGenerator st1); [rewrite Hg1 by done; lia|].
    destruct (schemaGenerator st2); [rewrite Hg2 by done; lia|]. lia.
Qed.

Lemma forEach_rel {A} (R : Plugin -> Plugin -> Prop) (f : A -> M A) l st l' st' :
  (forall st, R st st) ->
  (forall st1 st2 st3, R st1 st2 -> R st2 st3 -> R st1 st3) ->
  (forall x st x' st', f x st = Ok (x', st') -> R st st') ->
  forEach f l st = Ok (l', st') -> R st st'.
Proof.
  intros Hrefl Htrans Hf. revert st l'.
  induction l as [|x l IH]; intros st l'; simpl.
  - by intros [= _ <-].
  - intros (x' & st1 & H1 & (l1 & st2 & H2 & [= _ <-])%bind_Ok)%bind_Ok.
    eapply Htrans; [by eapply Hf | by eapply IH].
Qed.

Lemma forEach_acc_rel {A B} (R : Plugin -> Plugin -> Prop) (f : B -> A -> M B)
    l b st b' st' :
  (forall st, R st st) ->
  (forall st1 st2 st3, R st1 st2 -> R st2 st3 -> R st1 st3) ->
  (forall b x st b' st', f b x st = Ok (b', st') -> R st st') ->
  forEach_acc f l b st = Ok (b', st') -> R st st'.
Proof.
  intros Hrefl Htrans Hf. revert b st.
  induction l as [|x l IH]; intros b st; simpl.
  - by intros [= _ <-].
  - intros (b1 & st1 & H1 & H2)%bind_Ok.
    eapply Htrans; [by eapply Hf | by eapply IH].
Qed.

Section ScanMore.

Variable createSchema : string -> option JsVal.

Lemma generateSchema_grows modelName st schema st' :
  generateSchema createSchema modelName st = Ok (schema, st') -> grows st st'.
Proof.
  unfold generateSchema. destruct (createSchema modelName); [|done].
  intros [= _ <-].
  apply (grows_intro _ _ [] [modelName] []);
    unfold registry, ensure_generator;
    destruct (schemaGenerator st) eqn:E; simpl; rewrite ?E, ?app_nil_r; try done; lia.
Qed.

Lemma registered_grows st modelName schema : grows st (registered st modelName schema).
Proof.
  apply (grows_intro _ _ [model_entry modelName schema] [modelName] []);
    rewrite ?registry_registered, ?apiNamespace_registered, ?missing_registered,
      ?app_nil_r; try done;
    unfold registered, ensure_generator;
    destruct (schemaGenerator st) eqn:E; simpl; rewrite ?E; try done; lia.
Qed.

Lemma setModel_grows modelName st u st' :
  setModel createSchema modelName st = Ok (u, st') -> grows st st'.
Proof.
  destruct (createSchema modelName) as [schema|] eqn:E.
  - rewrite (setModel_ok _ _ _ _ E). intros [= _ <-]. apply registered_grows.
  - by rewrite (setModel_throw _ _ _ E).
Qed.

Lemma setModels_grows e functionName st e' st' :
  setModels createSchema e functionName st = Ok (e', st') -> grows st st'.
Proof.
  unfold setModels.
  destruct (String.eqb _ "delete"); [intros [= _ <-]; apply grows_refl|].
  destruct (_ || _).
  - intros ([] & st1 & H1 & (schema & _ & _ & ->)%case_get_Ok)%bind_Ok.
    eapply grows_trans; [by eapply setModel_grows | apply registered_grows].
  - destruct (String.eqb _ "get"); [|intros [= _ <-]; apply grows_refl].
    intros (schema & _ & _ & ->)%case_get_Ok. apply registered_grows.
Qed.

Lemma setDefaultParam_grows key e param st e' st' :
  setDefaultParam createSchema key e param st = Ok (e', st') -> grows st st'.
Proof.
  unfold setDefaultParam. destruct param as [name required].
  destruct (documentation e) as [| |doc]; try done.
  rewrite get_prop_set_eq.
  destruct (if truthy _ then _ else _) as [| l |]; try done.
  intros (found & st1 & H1 & H2)%bind_Ok.
  assert (st1 = st) as ->.
  { unfold lift in H1. destruct (find_param name l 0); congruence. }
  destruct found as [[i existing]|]; [|injection H2 as _ <-; apply grows_refl].
  apply bind_Ok in H2 as (existing' & st2 & H2 & [= _ <-]).
  destruct (get_prop existing "schema") as [[| | | |s]| |];
    try (injection H2 as _ <-; apply grows_refl).
  apply bind_Ok in H2 as (schema & st3 & H2 & [= _ <-]).
  by eapply generateSchema_grows.
Qed.

Lemma scanEvent_grows functionName event st event' st' :
  scanEvent createSchema functionName event st = Ok (event', st') -> grows st st'.
Proof.
  assert (Hpush : grows st (push_missing st functionName)).
  { apply (grows_intro _ _ [] [] [functionName]); unfold registry; simpl;
      rewrite ?app_nil_r; try done.
    destruct (schemaGenerator st); lia. }
  unfold scanEvent. destruct (http event) as [|text|e].
  - intros [= _ <-]. apply grows_refl.
  - destruct (negb _); intros [= _ <-]; [done | apply grows_refl].
  - destruct (documented (documentation e)).
    + intros (e1 & st1 & H1 & (e2 & st2 & H2 & (e3 & st3 & H3 & [= _ <-])%bind_Ok)%bind_Ok)%bind_Ok.
      apply setModels_grows in H1.
      apply (forEach_acc_rel grows _ _ _ _ _ _ grows_refl grows_trans
               (setDefaultParam_grows "pathParams")) in H2.
      apply (forEach_acc_rel grows _ _ _ _ _ _ grows_refl grows_trans
               (setDefaultParam_grows "queryParams")) in H3.
      eauto using grows_trans.
    + destruct (_ && _); intros [= _ <-]; [done | apply grows_refl].
Qed.

Lemma scanFunctions_grows functions st functions' st' :
  scanFunctions createSchema functions st = Ok (functions', st') -> grows st st'.
Proof.
  apply (forEach_rel grows _ _ _ _ _ grows_refl grows_trans).
  intros [name events] st1 f' st2. unfold scanFunction.
  destruct (has_key _ _); [done|].
  destruct (plain_key _); [|intros [= _ <-]; apply grows_refl].
  intros (events' & st3 & H & [= _ <-])%bind_Ok.
  revert H. apply (forEach_rel grows _ _ _ _ _ grows_refl grows_trans).
  intros ev sta ev' stb. apply scanEvent_grows.
Qed.

(** X8.  Over a scan that returns, of functions under keys without [.],
    [[] and []], the plugin only accumulates: the model registry and the
    record of the generator's calls end with what they had at their heads,
    the list of undocumented functions is the list there was followed by the
    function of every undocumented event, in the order of the scan, the API
    namespace is the same, and the generator is created once if the plugin
    had none and a schema was asked for, and not at all if it had one. *)
Theorem scan_accumulates functions st functions' st' :
  plain_keys functions = true ->
  scanFunctions createSchema functions st = Ok (functions', st') ->
  (exists added, registry st' = registry st ++ added)
  /\ (exists calls, createSchemaCalls st' = createSchemaCalls st ++ calls)
  /\ functionsMissingDocumentation st'
     = functionsMissingDocumentation st ++ offenders functions
  /\ apiNamespace st' = apiNamespace st
  /\ (schemaGenerator st = true -> generatorsCreated st' = generatorsCreated st)
  /\ generatorsCreated st' <= S (generatorsCreated st).
Proof.
  intros Hplain H. pose proof (scanFunctions_missing _ _ _ _ _ Hplain H) as Hmissing.
  destruct (scanFunctions_grows _ _ _ _ H) as (Ha & Hc & _ & Hn & Hg & Hk).
  repeat split; try done.
  - intros Hs. rewrite Hk, Hs. lia.
  - rewrite Hk. destruct (schemaGenerator st), (schemaGenerator st'); lia.
Qed.

(** X9.  A run over functions under keys without [.], [[] and []] returns
    exactly when the scan returns, the plugin had no function recorded as
    undocumented before it, and no event of a function is undocumented; it
    then returns what the scan returned. *)
Theorem populateServerlessWithModels_returns functions st functions' st' :
  plain_keys functions = true ->
  populateServerlessWithModels createSchema functions st = Ok (functions', st')
  <-> scanFunctions createSchema functions st = Ok (functions', st')
      /\ functionsMissingDocumentation st = []
      /\ offenders functions = [].
Proof.
  intros Hplain. unfold populateServerlessWithModels. split.
  - intros (fs1 & st1 & Hscan & ([] & st2 & Hassert & [= <- <-])%bind_Ok)%bind_Ok.
    unfold assertAllFunctionsDocumented in Hassert.
    destruct (functionsMissingDocumentation st1) eqn:Hm; [|done].
    injection Hassert as <-. split; [done|].
    rewrite (scanFunctions_missing _ _ _ _ _ Hplain Hscan) in Hm.
    by apply app_eq_nil in Hm.
  - intros (Hscan & Hm & Ho). unfold bind. rewrite Hscan.
    unfold assertAllFunctionsDocumented.
    by rewrite (scanFunctions_missing _ _ _ _ _ Hplain Hscan), Hm, Ho.
Qed.

End ScanMore.

Lemma forEach_Forall2 {A} (R : A -> A -> Prop) (f : A -> M A) l st l' st' :
  (forall x st x' st', f x st = Ok (x', st') -> R x x') ->
  forEach f l st = Ok (l', st') -> Forall2 R l l'.
Proof.
  intros Hf. revert st l'. induction l as [|x l IH]; intros st l'; simpl.
  - intros [= <- _]. constructor.
  - intros (x' & st1 & H1 & (l1 & st2 & H2 & [= <- <-])%bind_Ok)%bind_Ok.
    constructor; [by eapply Hf | by eapply IH].
Qed.

Lemma scanned_undocumented event event' :
  scanned event event' -> undocumented event' = undocumented event.
Proof.
  unfold scanned, undocumented. destruct (http event) as [|text|e] eqn:E.
  - intros ->. by rewrite E.
  - intros ->. by rewrite E.
  - destruct (documented (documentation e)) eqn:Hd; [|intros ->; by rewrite E, Hd].
    intros (e' & -> & _ & Hd'). simpl. by rewrite Hd'.
Qed.

Section ScanStructure.

Variable createSchema : string -> option JsVal.

Lemma setModels_event e functionName st e1 st1 :
  setModels createSchema e functionName st = Ok (e1, st1) ->
  e1 = set_documentation e (documentation e1)
  /\ (documented (documentation e) = true -> documented (documentation e1) = true).
Proof.
  unfold setModels.
  destruct (String.eqb _ "delete"); [by intros [= <- _]|].
  destruct (_ || _).
  - by intros ([] & st0 & _ & (schema & _ & -> & _)%case_get_Ok)%bind_Ok.
  - destruct (String.eqb _ "get").
    + by intros (schema & _ & -> & _)%case_get_Ok.
    + intros [= <- _]. by rewrite set_documentation_same.
Qed.

Lemma setDefaultParamsDocumentation_event key params e st e' st' :
  setDefaultParamsDocumentation createSchema params e key st = Ok (e', st') ->
  e' = set_documentation e (documentation e')
  /\ (documented (documentation e) = true -> documented (documentation e') = true).
Proof.
  unfold setDefaultParamsDocumentation. revert e st.
  induction params as [|param params IH]; intros e st; cbn [forEach_acc].
  - intros [= <- _]. by rewrite set_documentation_same.
  - intros (e1 & st1 & H1 & H2)%bind_Ok.
    apply IH in H2 as [He' Hd'].
    pose proof (setDefaultParam_frame _ _ _ _ _ _ _ H1) as [He1 _].
    assert (Hd1 : documented (documentation e1) = true).
    { unfold setDefaultParam in H1. destruct param as [name required].
      destruct (documentation e) as [| |doc]; try done.
      rewrite get_prop_set_eq in H1.
      destruct (if truthy _ then _ else _) as [| l |]; try done.
      apply bind_Ok in H1 as (found & st2 & _ & H1).
      destruct found as [[i existing]|]; [|by injection H1 as <- _].
      by apply bind_Ok in H1 as (existing' & st3 & _ & [= <- _]). }
    split; [rewrite He', He1; reflexivity | auto].
Qed.

Lemma scanEvent_scanned functionName event st event' st' :
  scanEvent createSchema functionName event st = Ok (event', st') -> scanned event event'.
Proof.
  unfold scanEvent, scanned. destruct (http event) as [|text|e].
  - by intros [= <- _].
  - destruct (negb _); by intros [= <- _].
  - destruct (documented (documentation e)) eqn:Hd.
    + intros (e1 & st1 & H1 & (e2 & st2 & H2 & (e3 & st3 & H3 & [= <- _])%bind_Ok)%bind_Ok)%bind_Ok.
      apply setModels_event in H1 as [He1 Hd1].
      apply setDefaultParamsDocumentation_event in H2 as [He2 Hd2].
      apply setDefaultParamsDocumentation_event in H3 as [He3 Hd3].
      exists e3. split; [done|]. split; [|auto].
      rewrite He3, He2, He1. reflexivity.
    + destruct (_ && _); by intros [= <- _].
Qed.

Lemma scanned_refl event : scanned event event.
Proof.
  unfold scanned. destruct (http event) as [|text|e] eqn:E; try done.
  destruct (documented (documentation e)) eqn:Hd; [|done].
  exists e. destruct event as [h]. simpl in E. subst h.
  by rewrite set_documentation_same.
Qed.

Lemma scanFunction_scanned functions function st function' st' :
  scanFunction createSchema functions function st = Ok (function', st') ->
  fst function' = fst function /\ Forall2 scanned (snd function) (snd function').
Proof.
  unfold scanFunction. destruct (has_key _ _); [done|].
  destruct (plain_key _).
  - intros (events & st1 & H & [= <- _])%bind_Ok. split; [done|].
    simpl. eapply forEach_Forall2; [|exact H]. intros ev sta ev' stb.
    apply scanEvent_scanned.
  - intros [= <- _]. split; [done|]. apply Forall_Forall2_diag, Forall_forall.
    intros ev _. apply scanned_refl.
Qed.

(** X10.  The scan returns the functions it was given, under the same keys
    and in the same order, each with as many events as it had: an event with
    a truthy [documentation] comes back with its method, its private flag and
    its parameters, and a [documentation] that is truthy still; every other
    event comes back as it was.  So the events that count as undocumented are
    the same after the scan as before it. *)
Theorem scan_keeps_the_service functions st functions' st' :
  scanFunctions createSchema functions st = Ok (functions', st') ->
  functions'.*1 = functions.*1
  /\ Forall2 (fun f f' => Forall2 scanned (snd f) (snd f')) functions functions'
  /\ offenders functions' = offenders functions.
Proof.
  intros H.
  assert (Hall : Forall2 (fun f f' => fst f' = fst f /\ Forall2 scanned (snd f) (snd f'))
                   functions functions').
  { eapply forEach_Forall2; [|exact H]. intros f sta f' stb.
    apply scanFunction_scanned. }
  clear H. induction Hall as [|[name events] [name' events'] fs fs' [Hn He] _ IH].
  - done.
  - destruct IH as (IH1 & IH2 & IH3). simpl in Hn, He. subst name'.
    split; [by rewrite !fmap_cons, IH1|]. split; [by constructor|].
    unfold offenders in *. simpl. rewrite IH3. f_equal.
    clear -He. induction He as [|ev ev' evs evs' Hev _ IH]; [done|].
    simpl. rewrite (scanned_undocumented _ _ Hev).
    destruct (undocumented ev); simpl; by rewrite IH.
Qed.

(** X17.  An http event written in the shorthand, as a string that is not
    empty, has no [documentation] and no [private] to read: the scan records
    its function, and a run over functions with such an event, under keys
    without [.], [[] and []], never returns; when the scan reaches its end
    the run throws the [Error] of [assertAllFunctionsDocumented], with the
    function among those it names. *)
Theorem shorthand_event_fails_the_run functions functionName events text st :
  plain_keys functions = true ->
  In (functionName, events) functions ->
  In {| http := HttpShorthand text |} events ->
  text <> "" ->
  (forall functions' st',
      populateServerlessWithModels createSchema functions st <> Ok (functions', st'))
  /\ forall functions' st',
       scanFunctions createSchema functions st = Ok (functions', st') ->
       populateServerlessWithModels createSchema functions st
       = Throw (Error (missing_message (functionsMissingDocumentation st')))
       /\ In functionName (functionsMissingDocumentation st').
Proof.
  intros Hplain Hf He Htext.
  assert (Hu : undocumented {| http := HttpShorthand text |} = true).
  { unfold undocumented. simpl. by destruct (String.eqb_spec text ""). }
  assert (Hafter : forall functions' st',
             scanFunctions createSchema functions st = Ok (functions', st') ->
             populateServerlessWithModels createSchema functions st
             = Throw (Error (missing_message (functionsMissingDocumentation st')))
             /\ In functionName (functionsMissingDocumentation st')).
  { intros functions' st' Hscan.
    assert (Hin : In functionName (functionsMissingDocumentation st')).
    { rewrite (scanFunctions_missing _ _ _ _ _ Hplain Hscan). apply in_or_app. right.
      by eapply offenders_In. }
    split; [|done]. apply (populate_after_scan _ _ _ _ _ Hscan).
    intros Hnil. by rewrite Hnil in Hin. }
  split; [|done]. intros functions' st' Hrun.
  destruct (scanFunctions createSchema functions st) as [[fs1 st1]|ex] eqn:Hscan.
  - destruct (Hafter fs1 st1 eq_refl) as [Hthrow _]. congruence.
  - by rewrite (populate_after_throw _ _ _ _ Hscan) in Hrun.
Qed.

End ScanStructure.

(** ** The scan runs to its end *)

Section ScanRuns.

Variable createSchema : string -> option JsVal.

Lemma setModels_runs e functionName st o :
  documentation e = DocObj o ->
  (forall modelName,
      In modelName (models_asked (definition_prefix st functionName) e) ->
      createSchema modelName <> None) ->
  exists o1 st1,
    setModels createSchema e functionName st = Ok (set_documentation e (DocObj o1), st1)
    /\ get_prop o1 "pathParams" = get_prop o "pathParams"
    /\ get_prop o1 "queryParams" = get_prop o "queryParams"
    /\ apiNamespace st1 = apiNamespace st.
Proof.
  intros Ho. unfold setModels, models_asked.
  set (prefix := definition_prefix st functionName).
  destruct (String.eqb _ "delete").
  { intros _. unfold ret, lodash_set_documentation. rewrite Ho.
    eexists _, st. split; [reflexivity|]. by rewrite !get_prop_set_ne. }
  destruct (_ || _).
  { intros Hasked.
    destruct (createSchema (prefix +:+ ".Request.Body")) as [request|] eqn:Hq;
      [|exfalso; apply (Hasked (prefix +:+ ".Request.Body"));
        [left; reflexivity | exact Hq]].
    destruct (createSchema (prefix +:+ ".Response")) as [response|] eqn:Hr;
      [|exfalso; apply (Hasked (prefix +:+ ".Response"));
        [right; left; reflexivity | exact Hr]].
    unfold bind at 1. rewrite (setModel_ok _ _ _ _ Hq), (case_get_ok _ _ _ _ _ Hr).
    unfold lodash_set_documentation. cbn [documentation set_documentation]. rewrite Ho.
    eexists _, _. split; [reflexivity|].
    rewrite !get_prop_set_ne by done. by rewrite !apiNamespace_registered. }
  destruct (String.eqb _ "get").
  { intros Hasked.
    destruct (createSchema (prefix +:+ ".Response")) as [response|] eqn:Hr;
      [|exfalso; apply (Hasked (prefix +:+ ".Response"));
        [left; reflexivity | exact Hr]].
    rewrite (case_get_ok _ _ _ _ _ Hr).
    unfold lodash_set_documentation. rewrite Ho.
    eexists _, _. split; [reflexivity|].
    rewrite !get_prop_set_ne by done. by rewrite apiNamespace_registered. }
  intros _. exists o, st. unfold ret. by rewrite <- Ho, set_documentation_same.
Qed.

Lemma documented_params_same o o' key :
  get_prop o' key = get_prop o key -> documented_params o' key = documented_params o key.
Proof. intros H. unfold documented_params. by rewrite H. Qed.

Lemma schema_asked_first l name i p s :
  first_match name l i p -> get_prop p "schema" = JStr s -> In s (schema_asked l name).
Proof.
  intros (Hi & Hname & Hbefore) Hs. unfold schema_asked.
  rewrite (find_param_some _ _ _ _ 0 Hi Hname Hbefore), Hs. by left.
Qed.

(** The loop over the parameters of an event, for a generator that has what
    the loop asks of it. *)
Lemma setDefaultParamsDocumentation_runs key params e o st :
  documentation e = DocObj o ->
  good_params o key ->
  NoDup params.*1 ->
  (forall s, In s (schemas_asked (DocObj o) key params) -> createSchema s <> None) ->
  exists o' st',
    setDefaultParamsDocumentation createSchema params e key st
    = Ok (set_documentation e (DocObj o'), st')
    /\ (forall k, k <> key -> get_prop o' k = get_prop o k)
    /\ apiNamespace st' = apiNamespace st.
Proof.
  intros Ho (l & Hl & Hgood) Hnd Hasked.
  destruct (setDefaultParamsDocumentation_loop createSchema (fun _ => True)
              (fun _ _ => I) (fun _ _ _ => I) key params e o l st Ho Hl Hgood Hnd)
    as (o' & l' & st' & Hrun & _ & Hkeys & _).
  - intros n r i p s Hin Hfirst Hs. apply Hasked. unfold schemas_asked. rewrite Hl.
    apply in_flat_map. exists (n, r). split; [done|]. by eapply schema_asked_first.
  - exists o', st'. split; [done|]. split; [done|].
    unfold setDefaultParamsDocumentation in Hrun.
    by destruct (forEach_acc_rel grows _ _ _ _ _ _ grows_refl grows_trans
                   (setDefaultParam_grows createSchema key) Hrun) as (_ & _ & _ & Hns & _).
Qed.

Lemma scanEvent_runs functionName event st :
  ready event ->
  (forall s, In s (asked_by_event (apiNamespace st) functionName event) ->
             createSchema s <> None) ->
  exists event' st',
    scanEvent createSchema functionName event st = Ok (event', st')
    /\ apiNamespace st' = apiNamespace st.
Proof.
  unfold ready, asked_by_event, scanEvent. destruct event as [[|text|e]]; cbn [http].
  - by eexists _, _.
  - destruct (negb _); by eexists _, _.
  - destruct (documented (documentation e)) eqn:Hd;
      [|destruct (_ && _); by eexists _, _].
    destruct (documentation e) as [|p|o] eqn:Ho; [done | simpl in Hd; congruence |].
    intros (Hpath & Hquery & Hnp & Hnq) Hasked.
    destruct (setModels_runs e functionName st o Ho) as (o1 & st1 & Hmodels & Hp1 & Hq1 & Hns1).
    { intros s Hs. apply Hasked. apply in_or_app. by left. }
    unfold bind at 1. rewrite Hmodels. cbn [paths querystrings set_documentation].
    destruct (setDefaultParamsDocumentation_runs "pathParams" (paths e)
                (set_documentation e (DocObj o1)) o1 st1 eq_refl)
      as (o2 & st2 & Hpaths & Hk2 & Hns2).
    { destruct Hpath as (l & Hl & Hgood). exists l.
      by rewrite (documented_params_same o o1). }
    { done. }
    { intros s Hs. apply Hasked. apply in_or_app. right. apply in_or_app. left.
      unfold schemas_asked in *. by rewrite (documented_params_same o o1) in Hs. }
    unfold bind at 1. rewrite Hpaths.
    assert (Hq2 : get_prop o2 "queryParams" = get_prop o "queryParams").
    { by rewrite Hk2. }
    destruct (setDefaultParamsDocumentation_runs "queryParams" (querystrings e)
                (set_documentation (set_documentation e (DocObj o1)) (DocObj o2)) o2 st2
                eq_refl)
      as (o3 & st3 & Hqueries & _ & Hns3).
    { destruct Hquery as (l & Hl & Hgood). exists l.
      by rewrite (documented_params_same o o2). }
    { done. }
    { intros s Hs. apply Hasked. apply in_or_app. right. apply in_or_app. right.
      unfold schemas_asked in *. by rewrite (documented_params_same o o2) in Hs. }
    unfold bind at 1. rewrite Hqueries. eexists _, _. split; [done|]. congruence.
Qed.

Lemma forEach_scanEvent_runs functionName events st :
  (forall event, In event events -> ready event) ->
  (forall s, In s (flat_map (asked_by_event (apiNamespace st) functionName) events) ->
             createSchema s <> None) ->
  exists events' st',
    forEach (scanEvent createSchema functionName) events st = Ok (events', st')
    /\ apiNamespace st' = apiNamespace st.
Proof.
  revert st. induction events as [|event events IH]; intros st Hready Hasked.
  - by eexists _, _.
  - destruct (scanEvent_runs functionName event st) as (event' & st1 & Hevent & Hns1).
    { apply Hready. by left. }
    { intros s Hs. apply Hasked. simpl. apply in_or_app. by left. }
    destruct (IH st1) as (events' & st2 & Hevents & Hns2).
    { intros ev Hev. apply Hready. by right. }
    { intros s Hs. apply Hasked. simpl. apply in_or_app. right. by rewrite <- Hns1. }
    cbn [forEach]. unfold bind. rewrite Hevent, Hevents.
    eexists _, _. split; [done|]. congruence.
Qed.

Lemma forEach_scanFunction_runs all functions st :
  (forall key, has_key all (key +:+ ".events") = false) ->
  plain_keys functions = true ->
  (forall functionName events event,
      In (functionName, events) functions -> In event events -> ready event) ->
  (forall s, In s (asked (apiNamespace st) functions) -> createSchema s <> None) ->
  exists functions' st',
    forEach (scanFunction createSchema all) functions st = Ok (functions', st').
Proof.
  intros Hkey. unfold plain_keys, asked. revert st.
  induction functions as [|[name events] functions IH]; intros st Hplain Hready Hasked.
  - by eexists _, _.
  - cbn [forallb fst] in Hplain. apply andb_true_iff in Hplain as [Hname Hplain].
    destruct (forEach_scanEvent_runs name events st) as (events' & st1 & Hevents & Hns1).
    { intros ev Hev. apply (Hready name events); [by left | done]. }
    { intros s Hs. apply Hasked. simpl. apply in_or_app. by left. }
    destruct (IH st1 Hplain) as (functions' & st2 & Hfunctions).
    { intros fn evs ev Hin. apply (Hready fn evs ev). by right. }
    { intros s Hs. apply Hasked. simpl. apply in_or_app. right. by rewrite <- Hns1. }
    cbn [forEach]. unfold bind at 1. unfold scanFunction at 1. cbn [fst snd].
    rewrite Hkey, Hname. unfold bind at 1. rewrite Hevents. unfold ret at 1.
    unfold bind. rewrite Hfunctions. by eexists _, _.
Qed.

(** C1, for a scan that nothing interrupts.  The functions are under keys
    without [.], [[] and []]; every truthy [documentation] is a mapping whose
    [pathParams] and [queryParams] can be searched; and the generator has
    every schema the scan asks it for: the models of the documented events,
    by their methods, and the models that the entries of their parameters
    name.  Then the two loops visit every event of every function without an
    exception and push the name of the function once for each event they
    find undocumented; if one http event lacks the [documentation] key and is
    not private, the run then throws the [Error] of
    [assertAllFunctionsDocumented], and the name of every function with such
    an event is in its message. *)
Theorem missing_documentation_reported functions st :
  plain_keys functions = true ->
  (forall functionName events event,
      In (functionName, events) functions -> In event events -> ready event) ->
  (forall modelName,
      In modelName (asked (apiNamespace st) functions) -> createSchema modelName <> None) ->
  (exists functionName events e,
      In (functionName, events) functions /\ In {| http := HttpObject e |} events
      /\ documentation e = DocAbsent /\ truthy (private e) = false) ->
  exists functions' st',
    scanFunctions createSchema functions st = Ok (functions', st')
    /\ functionsMissingDocumentation st'
       = functionsMissingDocumentation st ++ offenders functions
    /\ populateServerlessWithModels createSchema functions st
       = Throw (Error (missing_message (functionsMissingDocumentation st')))
    /\ forall functionName events e,
         In (functionName, events) functions -> In {| http := HttpObject e |} events ->
         documentation e = DocAbsent -> truthy (private e) = false ->
         In functionName (functionsMissingDocumentation st')
         /\ contains (missing_message (functionsMissingDocumentation st')) functionName.
Proof.
  intros Hplain Hready Hasked Hsome.
  destruct (forEach_scanFunction_runs functions functions st
              (fun key => has_key_plain functions key Hplain) Hplain Hready Hasked)
    as (functions' & st' & Hscan).
  fold (scanFunctions createSchema functions) in Hscan.
  pose proof (scanFunctions_missing _ _ _ _ _ Hplain Hscan) as Hmissing.
  assert (Hall : forall functionName events e,
             In (functionName, events) functions -> In {| http := HttpObject e |} events ->
             documentation e = DocAbsent -> truthy (private e) = false ->
             In functionName (functionsMissingDocumentation st')).
  { intros fn events e Hf He Hd Hp. rewrite Hmissing. apply in_or_app. right.
    eapply offenders_In; [done..|]. by apply absent_is_undocumented. }
  exists functions', st'. split; [done|]. split; [done|]. split.
  - apply (populate_after_scan _ _ _ _ _ Hscan).
    destruct Hsome as (fn & events & e & Hf & He & Hd & Hp).
    intros Hnil. specialize (Hall fn events e Hf He Hd Hp). by rewrite Hnil in Hall.
  - intros fn events e Hf He Hd Hp. split; [by eapply Hall|].
    apply missing_message_contains. by eapply Hall.
Qed.

End ScanRuns.

(** ** Post-processing, further *)

Lemma tagged_operation_twice tagName operation :
  tagged_operation tagName (tagged_operation tagName operation)
  = tagged_operation tagName operation.
Proof. destruct operation as [| |o]; simpl; [done..|]. by rewrite set_prop_twice. Qed.

Lemma tagged_path_item_twice tagName item :
  tagged_path_item tagName (tagged_path_item tagName item) = tagged_path_item tagName item.
Proof.
  destruct item as [| |members]; simpl; [done..|]. f_equal.
  rewrite <- list_fmap_compose. apply list_fmap_ext. intros i [k v] _. simpl.
  by rewrite tagged_operation_twice.
Qed.

Lemma is_path_item_tagged tagName item :
  is_path_item (tagged_path_item tagName item) = is_path_item item.
Proof.
  destruct item as [| |members]; simpl; [done..|].
  induction members as [|[k v] members IH]; [done|].
  rewrite fmap_cons. simpl. rewrite IH. by destruct v.
Qed.

Lemma path_items_tagged tagName (paths : JsObj) :
  forallb (fun kv => is_path_item (snd kv))
    ((fun kv => (fst kv, tagged_path_item tagName (snd kv))) <$> paths)
  = forallb (fun kv => is_path_item (snd kv)) paths.
Proof.
  induction paths as [|[k v] paths IH]; [done|].
  rewrite fmap_cons. simpl. by rewrite IH, is_path_item_tagged.
Qed.

(** [tagMethods] on a document, in one step. *)
Lemma tagMethods_document o info paths :
  get_prop o "info" = JObj info ->
  get_prop o "paths" = JObj paths ->
  forallb (fun kv => is_path_item (snd kv)) paths = true ->
  tagMethods (JObj o)
  = Ok (JObj (set_prop
                (set_prop o "tags"
                   (JArr [JObj [("name", get_prop info "title");
                                ("description", get_prop info "description")]]))
                "paths"
                (JObj ((fun kv => (fst kv,
                                   tagged_path_item (get_prop info "title") (snd kv)))
                       <$> paths)))).
Proof.
  intros Hinfo Hpaths Hitems.
  unfold tagMethods. cbn [read_member result_bind]. rewrite Hinfo.
  cbn [read_member result_bind assign_member].
  rewrite get_prop_set_ne by done. rewrite Hpaths.
  by rewrite (tag_paths _ _ Hitems).
Qed.

(** X11.  On a document as above, [patchOpenApiVersion] followed by
    [tagMethods], as [postProcessOpenApi] runs them, returns a document whose
    [openapi] is [3.1.0] whatever it was, whose [tags] is the entry of the
    title, and whose keys other than [openapi], [tags] and [paths] read as
    they did: tagging keeps the version the patch has set. *)
Theorem patch_then_tag o info paths :
  get_prop o "info" = JObj info ->
  get_prop o "paths" = JObj paths ->
  forallb (fun kv => is_path_item (snd kv)) paths = true ->
  exists o1 o2,
    patchOpenApiVersion (JObj o) = Ok (JObj o1)
    /\ tagMethods (JObj o1) = Ok (JObj o2)
    /\ get_prop o2 "openapi" = JStr "3.1.0"
    /\ get_prop o2 "tags"
       = JArr [JObj [("name", get_prop info "title");
                     ("description", get_prop info "description")]]
    /\ get_prop o2 "paths"
       = JObj ((fun kv => (fst kv, tagged_path_item (get_prop info "title") (snd kv)))
               <$> paths)
    /\ forall k, k <> "openapi" -> k <> "tags" -> k <> "paths" ->
                 get_prop o2 k = get_prop o k.
Proof.
  intros Hinfo Hpaths Hitems.
  eexists _, _. split; [reflexivity|].
  rewrite (tagMethods_document _ info paths);
    [|by rewrite get_prop_set_ne..|done].
  split; [reflexivity|]. repeat split.
  - rewrite !get_prop_set_ne by done. apply get_prop_set_eq.
  - rewrite get_prop_set_ne by done. apply get_prop_set_eq.
  - apply get_prop_set_eq.
  - intros k H1 H2 H3. by rewrite !get_prop_set_ne.
Qed.

Lemma paths_tagged_twice tagName (paths : JsObj) :
  (fun kv => (fst kv, tagged_path_item tagName (snd kv)))
    <$> ((fun kv => (fst kv, tagged_path_item tagName (snd kv))) <$> paths)
  = (fun kv => (fst kv, tagged_path_item tagName (snd kv))) <$> paths.
Proof.
  rewrite <- list_fmap_compose. apply list_fmap_ext. intros i [k v] _. simpl.
  by rewrite tagged_path_item_twice.
Qed.

(** X12.  [tagMethods] on the document it has returned returns that
    document: tagging twice is tagging once. *)
Theorem tagMethods_twice o info paths :
  get_prop o "info" = JObj info ->
  get_prop o "paths" = JObj paths ->
  forallb (fun kv => is_path_item (snd kv)) paths = true ->
  exists o', tagMethods (JObj o) = Ok (JObj o') /\ tagMethods (JObj o') = Ok (JObj o').
Proof.
  intros Hinfo Hpaths Hitems.
  rewrite (tagMethods_document o info paths Hinfo Hpaths Hitems).
  eexists. split; [reflexivity|].
  set (tags := JArr [JObj [("name", get_prop info "title");
                           ("description", get_prop info "description")]]).
  set (paths' := (fun kv => (fst kv, tagged_path_item (get_prop info "title") (snd kv)))
                 <$> paths).
  set (o' := set_prop (set_prop o "tags" tags) "paths" (JObj paths')).
  assert (Htags : get_prop o' "tags" = tags).
  { subst o'. rewrite get_prop_set_ne by done. apply get_prop_set_eq. }
  assert (Hpaths' : get_prop o' "paths" = JObj paths') by apply get_prop_set_eq.
  assert (Hinfo' : get_prop o' "info" = JObj info).
  { subst o'. by rewrite !get_prop_set_ne. }
  assert (Hitems' : forallb (fun kv => is_path_item (snd kv)) paths' = true).
  { subst paths'. by rewrite path_items_tagged. }
  rewrite (tagMethods_document o' info paths' Hinfo' Hpaths' Hitems').
  fold tags. do 2 f_equal.
  assert (Hagain : (fun kv => (fst kv, tagged_path_item (get_prop info "title") (snd kv)))
                   <$> paths' = paths') by apply paths_tagged_twice.
  rewrite Hagain, <- Htags, set_prop_same.
  - rewrite <- Hpaths'. apply set_prop_same. subst o'. by rewrite has_prop_set.
  - subst o'. rewrite !has_prop_set. done.
Qed.

Lemma assign_member_ok_or_type_error v k x : ok_or_type_error (assign_member v k x).
Proof. by destruct v. Qed.

Lemma mapM_ok_or_type_error {A B} (f : A -> Result B) l :
  (forall x, ok_or_type_error (f x)) -> ok_or_type_error (mapM f l).
Proof.
  intros Hf. induction l as [|x l IH]; simpl; [done|].
  specialize (Hf x). destruct (f x); simpl; [|done]. by destruct (mapM f l).
Qed.

Lemma mapM_throw {A B} (f : A -> Result B) l x :
  (forall y, ok_or_type_error (f y)) ->
  In x l -> f x = Throw TypeError -> mapM f l = Throw TypeError.
Proof.
  intros Hf Hin Hx. induction l as [|y l IH]; [done|]. simpl.
  destruct Hin as [->|Hin].
  - by rewrite Hx.
  - specialize (Hf y). destruct (f y); simpl in *; [|by subst]. by rewrite IH.
Qed.

Lemma forEach_value_ok_or_type_error f v :
  (forall x, ok_or_type_error (f x)) -> ok_or_type_error (forEach_value f v).
Proof.
  intros Hf. destruct v as [[| | | |s]|l|o]; simpl; try done.
  - pose proof (mapM_ok_or_type_error f (chars s) Hf). by destruct (mapM f (chars s)).
  - pose proof (mapM_ok_or_type_error f l Hf). by destruct (mapM f l).
  - set (g := fun kv : string * JsVal => _).
    assert (Hg : forall kv, ok_or_type_error (g kv)).
    { intros kv. subst g. simpl. specialize (Hf (snd kv)). by destruct (f (snd kv)). }
    pose proof (mapM_ok_or_type_error g o Hg). by destruct (mapM g o).
Qed.

Lemma tagMethods_no_info o :
  nullish (get_prop o "info") = true -> tagMethods (JObj o) = Throw TypeError.
Proof.
  intros Hinfo. unfold tagMethods. simpl. by destruct (get_prop o "info") as [[]| |].
Qed.

(** X13.  [tagMethods] throws a [TypeError] on a value that is no mapping, on
    a document without [info], on a document without [paths], and on a
    document one of whose path items has a scalar among its members, as
    [summary] or [description] are. *)
Theorem tagMethods_type_error :
  (forall p, tagMethods (JPrim p) = Throw TypeError)
  /\ (forall l, tagMethods (JArr l) = Throw TypeError)
  /\ (forall o, nullish (get_prop o "info") = true ->
                tagMethods (JObj o) = Throw TypeError)
  /\ (forall o, nullish (get_prop o "info") = false ->
                nullish (get_prop o "paths") = true ->
                tagMethods (JObj o) = Throw TypeError)
  /\ (forall o paths path members k p,
        nullish (get_prop o "info") = false ->
        get_prop o "paths" = JObj paths ->
        In (path, JObj members) paths ->
        In (k, JPrim p) members ->
        tagMethods (JObj o) = Throw TypeError).
Proof.
  assert (Hread : forall v k, nullish v = false -> exists x, read_member v k = Ok x).
  { intros [[]| |] k; simpl; try done; eauto. }
  split; [|split; [|split; [|split]]].
  - by intros [].
  - done.
  - apply tagMethods_no_info.
  - intros o Hinfo Hpaths. unfold tagMethods. cbn [read_member result_bind].
    destruct (Hread _ "title" Hinfo) as [title ->].
    destruct (Hread _ "description" Hinfo) as [description ->].
    cbn [result_bind assign_member read_member]. rewrite get_prop_set_ne by done.
    by destruct (get_prop o "paths") as [[]| |].
  - intros o paths path members k p Hinfo Hpaths Hpath Hmember.
    unfold tagMethods. cbn [read_member result_bind].
    destruct (Hread _ "title" Hinfo) as [title ->].
    destruct (Hread _ "description" Hinfo) as [description ->].
    cbn [result_bind assign_member read_member]. rewrite get_prop_set_ne by done.
    rewrite Hpaths. cbn [forEach_value].
    set (tag := fun method => assign_member method "tags" (JArr [title])).
    rewrite (mapM_throw _ paths (path, JObj members)); [done | | done |].
    + intros kv.
      pose proof (forEach_value_ok_or_type_error tag (snd kv)
                    (fun x => assign_member_ok_or_type_error x _ _)) as H.
      by destruct (forEach_value tag (snd kv)).
    + cbn [snd forEach_value].
      rewrite (mapM_throw _ members (k, JPrim p)); [done | | done | done].
      intros kv. simpl. by destruct (snd kv).
Qed.

Section PostProcessingMore.

Variable yaml_load : string -> Result JsVal.
Variable yaml_dump : JsVal -> Result string.

(** X14.  When [postProcessOpenApi] returns, the text of the output path has
    been parsed to a mapping that has an [info]; the output file holds the
    dump of that mapping with [openapi] set to [3.1.0] and its tags set by
    [tagMethods], and every other file is as it was. *)
Theorem postProcessOpenApi_returns outputFile (files files' : gmap string string) :
  postProcessOpenApi yaml_load yaml_dump outputFile files = Ok files' ->
  exists o tagged data,
    yaml_load outputFile = Ok (JObj o)
    /\ nullish (get_prop o "info") = false
    /\ patchOpenApiVersion (JObj o) = Ok (JObj (set_prop o "openapi" (JStr "3.1.0")))
    /\ tagMethods (JObj (set_prop o "openapi" (JStr "3.1.0"))) = Ok tagged
    /\ yaml_dump tagged = Ok data
    /\ files' !! outputFile = Some data
    /\ forall file, file <> outputFile -> files' !! file = files !! file.
Proof.
  unfold postProcessOpenApi.
  destruct (yaml_load outputFile) as [openApi|]; simpl; [|done].
  destruct openApi as [p|l|o]; [done | done |]. simpl.
  destruct (tagMethods _) as [tagged|] eqn:Htag; simpl; [|done].
  destruct (yaml_dump tagged) as [data|] eqn:Hdump; simpl; [|done].
  intros [= <-]. unfold writeFileSync. exists o, tagged, data.
  split; [done|]. split.
  { destruct (nullish (get_prop o "info")) eqn:Hinfo; [|done].
    rewrite (tagMethods_no_info (set_prop o "openapi" (JStr "3.1.0"))) in Htag; [done|].
    by rewrite get_prop_set_ne. }
  split; [done|]. split; [done|]. split; [done|]. split.
  - apply lookup_insert_eq.
  - intros file Hfile. by apply lookup_insert_ne.
Qed.

End PostProcessingMore.

(** ** The constructor *)

Lemma get_prop_delete_eq (o : JsObj) k : get_prop (delete_prop o k) k = JUndefined.
Proof.
  induction o as [|[k0 v0] o IH]; simpl; [done|].
  destruct (String.eqb k0 k) eqn:E; simpl; [done|]. by rewrite E.
Qed.

Lemma get_prop_delete_ne (o : JsObj) k k' :
  k <> k' -> get_prop (delete_prop o k) k' = get_prop o k'.
Proof.
  intros Hne. induction o as [|[k0 v0] o IH]; simpl; [done|].
  destruct (String.eqb k0 k) eqn:E; simpl.
  - apply String.eqb_eq in E as ->.
    destruct (String.eqb_spec k k'); [done | apply IH].
  - by rewrite IH.
Qed.

Lemma constructor_order sls options :
  truthy (get_prop (Constructor.hooks sls) "openapi:generate:serverless") = false ->
  Constructor.constructor sls options = Throw (Error Constructor.order_message).
Proof.
  intros H. unfold Constructor.constructor, Constructor.assertPluginOrder.
  change Constructor.generate with "openapi:generate:serverless". by rewrite H.
Qed.

Lemma constructor_no_custom sls options :
  truthy (get_prop (Constructor.hooks sls) "openapi:generate:serverless") = true ->
  nullish (Constructor.custom sls) = true ->
  Constructor.constructor sls options = Throw TypeError.
Proof.
  intros H Hc. unfold Constructor.constructor, Constructor.assertPluginOrder.
  change Constructor.generate with "openapi:generate:serverless". rewrite H. simpl.
  by destruct (Constructor.custom sls) as [[]| |].
Qed.

Lemma constructor_returns sls options :
  truthy (get_prop (Constructor.hooks sls) "openapi:generate:serverless") = true ->
  nullish (Constructor.custom sls) = false ->
  exists documentation,
    Constructor.custom_documentation (Constructor.custom sls) = Ok documentation
    /\ Constructor.constructor sls options
       = Ok {| Constructor.serverless :=
                 if truthy documentation then sls
                 else {| Constructor.hooks :=
                           delete_prop (Constructor.hooks sls)
                             "openapi:generate:serverless";
                         Constructor.custom := Constructor.custom sls |};
               Constructor.options := or_else options (JObj []);
               Constructor.typescriptApiModelPath :=
                 or_else (Constructor.option_of (or_else options (JObj []))
                            "typescriptApiPath") (JStr "api.d.ts");
               Constructor.tsconfigPath :=
                 or_else (Constructor.option_of (or_else options (JObj []))
                            "tsconfigPath") (JStr "tsconfig.json");
               Constructor.functionsMissingDocumentation := [];
               Constructor.disable := negb (truthy documentation);
               Constructor.own_hooks :=
                 if truthy documentation then
                   Some [("before:openapi:generate:serverless",
                          Constructor.BoundPopulateServerlessWithModels);
                         ("after:openapi:generate:serverless",
                          Constructor.BoundPostProcessOpenApi)]
                 else None |}.
Proof.
  intros H Hc. unfold Constructor.constructor, Constructor.assertPluginOrder.
  change Constructor.generate with "openapi:generate:serverless". rewrite H. simpl.
  assert (exists documentation,
             Constructor.custom_documentation (Constructor.custom sls) = Ok documentation)
    as [documentation Hd].
  { destruct (Constructor.custom sls) as [[]| |]; simpl in *; try done; eauto. }
  exists documentation. split; [done|]. rewrite Hd. simpl.
  by destruct (truthy documentation).
Qed.

(** X15.  The constructor throws the [Error] of [assertPluginOrder] exactly
    when the plugin manager has no truthy hook
    [openapi:generate:serverless], a [TypeError] exactly when it has one and
    [service.custom] is [undefined] or [null], and returns in every other
    case, with an empty list of undocumented functions. *)
Theorem constructor_outcome sls options :
  let hook := get_prop (Constructor.hooks sls) "openapi:generate:serverless" in
  (Constructor.constructor sls options = Throw (Error Constructor.order_message)
   <-> truthy hook = false)
  /\ (Constructor.constructor sls options = Throw TypeError
      <-> truthy hook = true /\ nullish (Constructor.custom sls) = true)
  /\ ((exists instance, Constructor.constructor sls options = Ok instance)
      <-> truthy hook = true /\ nullish (Constructor.custom sls) = false)
  /\ (forall instance,
        Constructor.constructor sls options = Ok instance ->
        Constructor.functionsMissingDocumentation instance = []).
Proof.
  intros hook. subst hook.
  destruct (truthy (get_prop (Constructor.hooks sls) "openapi:generate:serverless"))
    eqn:Hhook.
  - destruct (nullish (Constructor.custom sls)) eqn:Hcustom.
    + rewrite (constructor_no_custom sls options Hhook Hcustom). naive_solver.
    + destruct (constructor_returns sls options Hhook Hcustom) as (d & _ & ->).
      naive_solver.
  - rewrite (constructor_order sls options Hhook). naive_solver.
Qed.

(** X16.  With the generate hook registered and [service.custom] an object:
    if [custom.documentation] is falsy the instance is disabled and has no
    hooks of its own, the generate hook is gone from the plugin manager and
    every other hook is as it was, so that a second construction on what is
    left throws the [Error] of [assertPluginOrder]; if it is truthy the
    instance has the two hooks, before and after the generation, and
    [serverless] is as it was. *)
Theorem constructor_disables_or_hooks sls options documentation :
  truthy (get_prop (Constructor.hooks sls) "openapi:generate:serverless") = true ->
  Constructor.custom_documentation (Constructor.custom sls) = Ok documentation ->
  exists instance,
    Constructor.constructor sls options = Ok instance
    /\ (truthy documentation = false ->
        Constructor.disable instance = true
        /\ Constructor.own_hooks instance = None
        /\ get_prop (Constructor.hooks (Constructor.serverless instance))
             "openapi:generate:serverless" = JUndefined
        /\ (forall hook, hook <> "openapi:generate:serverless" ->
                         get_prop (Constructor.hooks (Constructor.serverless instance)) hook
                         = get_prop (Constructor.hooks sls) hook)
        /\ forall options',
             Constructor.constructor (Constructor.serverless instance) options'
             = Throw (Error Constructor.order_message))
    /\ (truthy documentation = true ->
        Constructor.disable instance = false
        /\ Constructor.serverless instance = sls
        /\ Constructor.own_hooks instance
           = Some [("before:openapi:generate:serverless",
                    Constructor.BoundPopulateServerlessWithModels);
                   ("after:openapi:generate:serverless",
                    Constructor.BoundPostProcessOpenApi)]).
Proof.
  intros Hhook Hdoc.
  assert (Hcustom : nullish (Constructor.custom sls) = false).
  { by destruct (Constructor.custom sls) as [[]| |]. }
  destruct (constructor_returns sls options Hhook Hcustom) as (d & Hd & ->).
  rewrite Hdoc in Hd. injection Hd as <-.
  eexists. split; [reflexivity|]. split.
  - intros Hfalsy. simpl. rewrite Hfalsy. simpl.
    split; [done|]. split; [done|]. split; [apply get_prop_delete_eq|].
    split; [intros hook Hne; by apply get_prop_delete_ne|].
    intros options'. apply constructor_order. simpl. by rewrite get_prop_delete_eq.
  - intros Htruthy. simpl. by rewrite Htruthy.
Qed.

(** * These properties at concrete configurations *)

Lemma missing_documentation_reported_witness :
  populateServerlessWithModels MoreExamples.declared MoreExamples.users_service
    Examples.plugin0
  = Throw (Error (missing_message ["listUsers"]))
  /\ contains (missing_message ["listUsers"]) "listUsers".
Proof.
  destruct (missing_documentation_reported MoreExamples.declared
              MoreExamples.users_service Examples.plugin0)
    as (functions' & st' & Hscan & Hmissing & Hrun & Hnames).
  - reflexivity.
  - intros functionName events event [[= <- <-]|[[= <- <-]|[]]] [<-|[]]; [|exact I].
    split; [|split; [|split]].
    + exists [JObj Examples.id_param]. split; [reflexivity|].
      constructor; [|constructor]. split; [reflexivity|].
      simpl. repeat (apply NoDup_cons; split;
                     [rewrite ?elem_of_cons, ?elem_of_nil; intuition discriminate|]).
      apply NoDup_nil_2.
    + exists []. split; [reflexivity | constructor].
    + apply NoDup_singleton.
    + apply NoDup_nil_2.
  - intros modelName [<-|[<-|[]]]; discriminate.
  - exists "listUsers",
      [{| http := HttpObject (Examples.httpEvent "get" JUndefined DocAbsent) |}],
      (Examples.httpEvent "get" JUndefined DocAbsent).
    split; [right; left; reflexivity|]. split; [left; reflexivity|]. done.
  - simpl in Hmissing. rewrite Hmissing in Hrun, Hnames. split; [exact Hrun|].
    eapply Hnames; [right; left; reflexivity | left; reflexivity | done..].
Defined.

Lemma setDefaultParamsDocumentation_entries_witness :
  exists st',
    setDefaultParamsDocumentation MoreExamples.declared
      (paths MoreExamples.two_params) MoreExamples.two_params "pathParams" Examples.plugin0
    = Ok (set_documentation MoreExamples.two_params
            (DocObj [("pathParams",
                      JArr [JObj [("name", JStr "id");
                                  ("schema",
                                   JObj [("title", JStr "Foo.Bar");
                                         ("type", JStr "object")]);
                                  ("description", JStr "the id");
                                  ("required", JBool true)];
                            JObj [("name", JStr "page"); ("required", JBool false);
                                  ("schema", JObj [("type", JStr "string")])]])]),
          st').
Proof.
  destruct (setDefaultParamsDocumentation_entries MoreExamples.declared "pathParams"
              (paths MoreExamples.two_params) MoreExamples.two_params
              [("pathParams", JArr [JObj Examples.id_param])]
              [JObj Examples.id_param] Examples.plugin0 eq_refl eq_refl)
    as (o' & l' & st' & Hrun & _).
  - constructor; [|constructor]. split; [reflexivity|].
    simpl. repeat (apply NoDup_cons; split;
                   [rewrite ?elem_of_cons, ?elem_of_nil; intuition discriminate|]).
    apply NoDup_nil_2.
  - simpl. repeat (apply NoDup_cons; split;
                   [rewrite ?elem_of_cons, ?elem_of_nil; intuition discriminate|]).
    apply NoDup_nil_2.
  - intros name required [|i] existing s _ (Hi & _); [|done].
    injection Hi as <-. intros [= <-]. discriminate.
  - exists st'. rewrite Hrun. vm_compute in Hrun. by injection Hrun as <- <-.
Defined.

Lemma setModels_other_method_witness :
  setModels Examples.noSchema
    (Examples.httpEvent "OPTIONS" JUndefined (DocObj Examples.summary))
    "preflight" Examples.plugin0
  = Ok (Examples.httpEvent "OPTIONS" JUndefined (DocObj Examples.summary),
        Examples.plugin0).
Proof.
  apply setModels_other_method.
  - discriminate.
  - intros [H|[H|H]]; discriminate H.
  - discriminate.
Defined.

Lemma setModels_schema_error_witness :
  setModels Examples.noSchema
    (Examples.httpEvent "POST" JUndefined (DocObj Examples.summary))
    "createOrder" Examples.plugin0
  = Throw (SchemaError "Api.CreateOrder.Request.Body").
Proof.
  apply (setModels_schema_error Examples.noSchema
           (Examples.httpEvent "POST" JUndefined (DocObj Examples.summary))
           "createOrder" Examples.plugin0).
  - right. right. reflexivity.
  - reflexivity.
Defined.

Lemma setModels_twice_witness :
  exists e1 st1 st2,
    setModels Examples.anySchema
      (Examples.httpEvent "POST" JUndefined (DocObj Examples.summary))
      "createOrder" Examples.plugin0 = Ok (e1, st1)
    /\ setModels Examples.anySchema e1 "createOrder" st1 = Ok (e1, st2)
    /\ length (registry st1) = 2 /\ length (registry st2) = 4.
Proof.
  eexists _, _.
  assert (Hfirst : setModels Examples.anySchema
                     (Examples.httpEvent "POST" JUndefined (DocObj Examples.summary))
                     "createOrder" Examples.plugin0 = Ok _) by (vm_compute; reflexivity).
  destruct (setModels_twice Examples.anySchema _ _ _ _ _ Hfirst) as (st2 & Hsecond & Hreg).
  exists st2. split; [exact Hfirst|]. split; [exact Hsecond|]. split; [reflexivity|].
  rewrite Hreg. reflexivity.
Defined.

Lemma setDefaultParamsDocumentation_documents_all_witness :
  exists o' l' st',
    setDefaultParamsDocumentation MoreExamples.declared
      (paths MoreExamples.two_params) MoreExamples.two_params "pathParams" Examples.plugin0
    = Ok (set_documentation MoreExamples.two_params (DocObj o'), st')
    /\ documented_params o' "pathParams" = Some l'
    /\ (exists i p, l' !! i = Some (JObj p) /\ get_prop p "name" = JStr "page")
    /\ length l' <= 3.
Proof.
  destruct (setDefaultParamsDocumentation_documents_all MoreExamples.declared "pathParams"
              (paths MoreExamples.two_params) MoreExamples.two_params
              [("pathParams", JArr [JObj Examples.id_param])]
              [JObj Examples.id_param] Examples.plugin0 eq_refl eq_refl)
    as (o' & l' & st' & Hrun & Hl' & Hall & Hlen & _).
  - constructor; [|constructor]. split; [reflexivity|].
    simpl. repeat (apply NoDup_cons; split;
                   [rewrite ?elem_of_cons, ?elem_of_nil; intuition discriminate|]).
    apply NoDup_nil_2.
  - simpl. repeat (apply NoDup_cons; split;
                   [rewrite ?elem_of_cons, ?elem_of_nil; intuition discriminate|]).
    apply NoDup_nil_2.
  - intros name required [|i] existing s _ (Hi & _); [|done].
    injection Hi as <-. intros [= <-]. discriminate.
  - exists o', l', st'. split; [exact Hrun|]. split; [exact Hl'|]. split.
    + destruct (Hall "page" (JBool false)) as (i & p & Hi & Hp & _);
        [right; left; reflexivity|]. by exists i, p.
    + simpl in Hlen. lia.
Defined.

Lemma setDefaultParamsDocumentation_twice_witness :
  exists e1 st1,
    setDefaultParamsDocumentation MoreExamples.declared
      (paths MoreExamples.two_params) MoreExamples.two_params "pathParams" Examples.plugin0
    = Ok (e1, st1)
    /\ setDefaultParamsDocumentation MoreExamples.declared
         (paths MoreExamples.two_params) e1 "pathParams" st1 = Ok (e1, st1).
Proof.
  destruct (setDefaultParamsDocumentation_twice MoreExamples.declared "pathParams"
              (paths MoreExamples.two_params) MoreExamples.two_params
              [("pathParams", JArr [JObj Examples.id_param])]
              [JObj Examples.id_param] Examples.plugin0 eq_refl eq_refl)
    as (e1 & st1 & Hrun & Hagain).
  - constructor; [|constructor]. split; [reflexivity|].
    simpl. repeat (apply NoDup_cons; split;
                   [rewrite ?elem_of_cons, ?elem_of_nil; intuition discriminate|]).
    apply NoDup_nil_2.
  - simpl. repeat (apply NoDup_cons; split;
                   [rewrite ?elem_of_cons, ?elem_of_nil; intuition discriminate|]).
    apply NoDup_nil_2.
  - intros name required [|i] existing s _ (Hi & _); [|done].
    injection Hi as <-. intros [= <-]. discriminate.
  - intros s schema. unfold MoreExamples.declared.
    destruct (_ || _); [|done]. intros [= <-] t. discriminate.
  - exists e1, st1. split; [exact Hrun | apply Hagain].
Defined.

Lemma setDefaultParamsDocumentation_frame_witness :
  exists e' st',
    setDefaultParamsDocumentation Examples.anySchema
      (paths MoreExamples.two_params) MoreExamples.two_params "pathParams" Examples.plugin0
    = Ok (e', st')
    /\ models st' = None
    /\ documentation_prop (documentation e') "queryParams" = JUndefined.
Proof.
  eexists _, _.
  assert (Hrun : setDefaultParamsDocumentation Examples.anySchema
                   (paths MoreExamples.two_params) MoreExamples.two_params "pathParams"
                   Examples.plugin0 = Ok _) by (vm_compute; reflexivity).
  destruct (setDefaultParamsDocumentation_frame Examples.anySchema _ _ _ _ _ _ Hrun)
    as (_ & Hkeys & Hmodels & _).
  split; [exact Hrun|]. split; [exact Hmodels|]. by apply Hkeys.
Defined.

Lemma setDefaultParamsDocumentation_type_error_witness :
  setDefaultParamsDocumentation Examples.anySchema
    [("id", JBool true)] MoreExamples.params_as_mapping "pathParams" Examples.plugin0
  = Throw TypeError.
Proof.
  destruct (setDefaultParamsDocumentation_type_error Examples.anySchema "pathParams" "id"
              (JBool true) [] MoreExamples.params_as_mapping Examples.plugin0)
    as (_ & Hmapping & _).
  apply (Hmapping [("pathParams", JObj [("id", JObj [])])]); reflexivity.
Defined.

Lemma scan_accumulates_witness :
  exists functions' st',
    scanFunctions Examples.anySchema Examples.two_events Examples.plugin0
    = Ok (functions', st')
    /\ generatorsCreated st' <= 1
    /\ functionsMissingDocumentation st' = [].
Proof.
  eexists _, _.
  assert (Hscan : scanFunctions Examples.anySchema Examples.two_events Examples.plugin0
                  = Ok _) by (vm_compute; reflexivity).
  destruct (scan_accumulates Examples.anySchema Examples.two_events _ _ _ eq_refl Hscan)
    as (_ & _ & Hmissing & _ & _ & Hcreated).
  split; [exact Hscan|]. split; [exact Hcreated | exact Hmissing].
Defined.

Lemma populateServerlessWithModels_returns_witness :
  exists functions' st',
    populateServerlessWithModels Examples.anySchema Examples.two_events Examples.plugin0
    = Ok (functions', st').
Proof.
  eexists _, _.
  apply (populateServerlessWithModels_returns Examples.anySchema); [reflexivity|].
  split; [vm_compute; reflexivity|]. split; reflexivity.
Defined.

Lemma scan_keeps_the_service_witness :
  exists functions' st',
    scanFunctions Examples.anySchema Examples.two_functions Examples.plugin0
    = Ok (functions', st')
    /\ functions'.*1 = ["getUser"; "listUsers"]
    /\ offenders functions' = ["listUsers"].
Proof.
  eexists _, _.
  assert (Hscan : scanFunctions Examples.anySchema Examples.two_functions Examples.plugin0
                  = Ok _) by (vm_compute; reflexivity).
  destruct (scan_keeps_the_service Examples.anySchema _ _ _ _ Hscan)
    as (Hkeys & _ & Hoffenders).
  split; [exact Hscan|]. split; [exact Hkeys | exact Hoffenders].
Defined.

Lemma patch_then_tag_witness :
  exists o1 o2,
    patchOpenApiVersion (JObj Examples.orders_api) = Ok (JObj o1)
    /\ tagMethods (JObj o1) = Ok (JObj o2)
    /\ get_prop o2 "openapi" = JStr "3.1.0".
Proof.
  destruct (patch_then_tag Examples.orders_api
              [("title", JStr "Orders API"); ("description", JStr "Orders")]
              [("/orders",
                JObj [("get", JObj [("summary", JStr "list"); ("tags", JArr [JStr "old"])]);
                      ("post", JObj [("summary", JStr "create")])])]
              eq_refl eq_refl eq_refl)
    as (o1 & o2 & Hpatch & Htag & Hversion & _).
  by exists o1, o2.
Defined.

Lemma tagMethods_twice_witness :
  exists o',
    tagMethods (JObj Examples.orders_api) = Ok (JObj o')
    /\ tagMethods (JObj o') = Ok (JObj o').
Proof.
  apply (tagMethods_twice Examples.orders_api
           [("title", JStr "Orders API"); ("description", JStr "Orders")]
           [("/orders",
             JObj [("get", JObj [("summary", JStr "list"); ("tags", JArr [JStr "old"])]);
                   ("post", JObj [("summary", JStr "create")])])]);
    reflexivity.
Defined.

Lemma tagMethods_type_error_witness :
  tagMethods (JObj MoreExamples.with_summary) = Throw TypeError.
Proof.
  destruct tagMethods_type_error as (_ & _ & _ & _ & Hscalar).
  apply (Hscalar MoreExamples.with_summary
           [("/orders",
             JObj [("summary", JStr "Orders"); ("get", JObj [("summary", JStr "list")])])]
           "/orders"
           [("summary", JStr "Orders"); ("get", JObj [("summary", JStr "list")])]
           "summary" (PStr "Orders")); [reflexivity | reflexivity | |].
  - left. reflexivity.
  - left. reflexivity.
Defined.

Lemma postProcessOpenApi_returns_witness :
  exists files',
    postProcessOpenApi MoreExamples.load_flow Examples.dump MoreExamples.flow_path
      MoreExamples.other_files = Ok files'
    /\ files' !! MoreExamples.flow_path = Some "{}"
    /\ files' !! "serverless.yml" = Some "service: orders".
Proof.
  eexists.
  assert (Hrun : postProcessOpenApi MoreExamples.load_flow Examples.dump
                   MoreExamples.flow_path MoreExamples.other_files = Ok _)
    by reflexivity.
  destruct (postProcessOpenApi_returns _ _ _ _ _ Hrun)
    as (o & tagged & data & Hload & _ & _ & Htag & Hdump & Hfile & Hother).
  split; [exact Hrun|]. split.
  - rewrite Hfile. f_equal. vm_compute in Hload. injection Hload as <-.
    vm_compute in Htag. injection Htag as <-. vm_compute in Hdump. by injection Hdump as <-.
  - rewrite Hother; [reflexivity | discriminate].
Defined.

Lemma constructor_outcome_witness :
  exists instance,
    Constructor.constructor MoreExamples.documented_service JUndefined = Ok instance.
Proof.
  apply (constructor_outcome MoreExamples.documented_service JUndefined).
  split; reflexivity.
Defined.

Lemma constructor_disables_or_hooks_witness :
  exists instance,
    Constructor.constructor MoreExamples.undocumented_service JUndefined = Ok instance
    /\ Constructor.disable instance = true
    /\ get_prop (Constructor.hooks (Constructor.serverless instance)) "package:initialize"
       = snd MoreExamples.package_hook
    /\ Constructor.constructor (Constructor.serverless instance) JUndefined
       = Throw (Error Constructor.order_message).
Proof.
  destruct (constructor_disables_or_hooks MoreExamples.undocumented_service JUndefined
              JUndefined eq_refl eq_refl) as (instance & Hrun & Hdisabled & _).
  destruct (Hdisabled eq_refl) as (Hd & _ & _ & Hother & Hagain).
  exists instance. split; [exact Hrun|]. split; [exact Hd|]. split.
  - rewrite Hother; [reflexivity | discriminate].
  - apply Hagain.
Defined.

Lemma shorthand_event_fails_the_run_witness :
  populateServerlessWithModels Examples.anySchema
    [("hello", [{| http := HttpShorthand "GET hello" |}])] Examples.plugin0
  = Throw (Error (missing_message ["hello"])).
Proof.
  destruct (shorthand_event_fails_the_run Examples.anySchema
              [("hello", [{| http := HttpShorthand "GET hello" |}])]
              "hello" [{| http := HttpShorthand "GET hello" |}] "GET hello"
              Examples.plugin0) as [_ Hafter].
  - reflexivity.
  - left. reflexivity.
  - left. reflexivity.
  - discriminate.
  - destruct (Hafter [("hello", [{| http := HttpShorthand "GET hello" |}])]
                (push_missing Examples.plugin0 "hello") eq_refl) as [Hthrow _].
    exact Hthrow.
Defined.
